(** * ingest_missing.py: gap-to-replay scheduling core

    A shallow embedding of [ingest_missing.py] and the properties of its
    ledger, interval expansion, driver catalog, playback loop and [main].

    The module is written for Python 2 (it goes through a dictionary with
    [iteritems]); the library calls are modelled as Python 2.7 has them.
    Python values are modelled as follows.
    - [str] is [string]; comparison of two [str] is the byte-wise
      lexicographic order [String.ltb].
    - a [dict] keyed by strings is a [gmap string _]; a [list] is a [list].
    - a call that can raise returns an [outcome]; code that also mutates an
      object or talks to the outside world is a function from a state to an
      [outcome] and the state afterwards (the state is kept when an
      exception is raised, as an in-place mutation is in Python). *)

From Stdlib Require Import ZArith Lia Ascii.
From stdpp Require Import base option list gmap strings.

Open Scope Z_scope.

(** ** Exceptions and outcomes *)

Inductive exn : Type :=
  | KeyError
  | NameError (name : string)
  | IOError
  | ValueError
  | OverflowError
  | IndexError
  | TypeError
  | TimeoutException.

(** [OutOfFuel] is not a Python outcome: it marks a loop of the model that
    was cut off.  The only [while] loop of the program is the one of
    [date_list]; [date_list_never_out_of_fuel] shows it is never cut off. *)
Inductive outcome (A : Type) : Type :=
  | Return (a : A)
  | Raise (e : exn)
  | OutOfFuel.
Arguments Return {A} a.
Arguments Raise {A} e.
Arguments OutOfFuel {A}.

(** State and exception monad: the state survives an exception. *)
Definition M (S A : Type) : Type := S -> outcome A * S.

Definition ret {S A} (a : A) : M S A := fun s => (Return a, s).
Definition raise {S A} (e : exn) : M S A := fun s => (Raise e, s).
Definition bind {S A B} (m : M S A) (k : A -> M S B) : M S B :=
  fun s =>
    match m s with
    | (Return a, s') => k a s'
    | (Raise e, s') => (Raise e, s')
    | (OutOfFuel, s') => (OutOfFuel, s')
    end.
Definition get {S} : M S S := fun s => (Return s, s).
Definition modify {S} (f : S -> S) : M S unit := fun s => (Return tt, f s).
Definition lift {S A} (o : outcome A) : M S A := fun s => (o, s).

#[global] Instance M_ret {S} : MRet (M S) := fun A a => ret a.
#[global] Instance M_bind {S} : MBind (M S) := fun A B k m => bind m k.

(** ** The ledger: class [PreviousIngests] *)

Module Ledger.
Section ledger.
(** The type of what is recorded per reference designator: the method is
    written for any value that supports [==]; [main] passes the
    [(begin, end)] tuple. *)
Context {A : Type} `{EqDecision A}.

(** An instance: the attribute [self.previous_ingests]. *)
Record PreviousIngests : Type := mkPreviousIngests {
  previous_ingests : gmap string (list A)
}.

(** [__init__]: [self.previous_ingests = {}]. *)
Definition init : PreviousIngests := mkPreviousIngests ∅.

(** [self.previous_ingests[refdes]]: [KeyError] when the key is absent. *)
Definition getitem (refdes : string) : M PreviousIngests (list A) :=
  fun self =>
    match previous_ingests self !! refdes with
    | Some l => (Return l, self)
    | None => (Raise KeyError, self)
    end.

(** [self.previous_ingests[refdes].append(missing_date)]: the subscript is
    evaluated first and raises [KeyError] on an absent key; otherwise the
    list stored under the key grows in place. *)
Definition getitem_append (refdes : string) (missing_date : A)
  : M PreviousIngests unit :=
  l ← getitem refdes;
  modify (fun self =>
    mkPreviousIngests (<[refdes := l ++ [missing_date]]> (previous_ingests self))).

(** [try ... except KeyError: handler]. *)
Definition try_except_KeyError {S B} (body handler : M S B) : M S B :=
  fun s =>
    match body s with
    | (Raise KeyError, s') => handler s'
    | r => r
    end.

(** [is_in_previous_ingests(self, refdes, missing_date)], lines 160-172. *)
Definition is_in_previous_ingests (refdes : string) (missing_date : A)
  : M PreviousIngests bool :=
  try_except_KeyError
    (l ← getitem refdes;
     if bool_decide (missing_date ∈ l) then ret true
     else (getitem_append refdes missing_date;; ret false))
    (getitem_append refdes missing_date;; ret false).

(** The spec's [shouldAttempt] is the negation of the method's answer. *)
Definition shouldAttempt (refdes : string) (missing_date : A)
  : M PreviousIngests bool :=
  b ← is_in_previous_ingests refdes missing_date; ret (negb b).

(** [load_previous_ingests(self)], lines 154-155: the file
    [previous_ingest.pickle] is opened ([IOError] when there is none) and
    unpickled; the object read is dropped, [self] is not touched and the
    method returns [None].  The state is the pickle files on disk, each
    with the mapping it holds. *)
Definition load_previous_ingests (self : PreviousIngests)
  : M (gmap string (gmap string (list A))) unit :=
  fun disk =>
    match disk !! "previous_ingest.pickle" with
    | Some _ => (Return tt, disk)
    | None => (Raise IOError, disk)
    end.

(** [write_previous_ingests(self, previous_ingests)], lines 157-158: the
    argument is pickled into [previous_ingests.pickle]. *)
Definition write_previous_ingests (self : PreviousIngests)
    (previous_ingests : gmap string (list A))
  : M (gmap string (gmap string (list A))) unit :=
  modify (fun disk => <["previous_ingests.pickle" := previous_ingests]> disk).

(** How often a pair is recorded in the mapping. *)
Definition records (self : PreviousIngests) (refdes : string) (x : A) : nat :=
  length (filter (fun y => y = x) (default [] (previous_ingests self !! refdes))).
End ledger.
Arguments PreviousIngests A : clear implicits.
End Ledger.

(** ** Strings *)

Module Str.
(** A decimal digit and its character. *)
Definition digit_char (n : Z) : ascii :=
  match n with
  | 0 => "0" | 1 => "1" | 2 => "2" | 3 => "3" | 4 => "4"
  | 5 => "5" | 6 => "6" | 7 => "7" | 8 => "8" | _ => "9"
  end%char.

Definition digit_of (c : ascii) : option Z :=
  let n := Z.of_N (Ascii.N_of_ascii c) in
  if (48 <=? n) && (n <=? 57) then Some (n - 48) else None.

(** The regular expression class [\s] on byte strings. *)
Definition is_space (c : ascii) : bool :=
  let n := Z.of_N (Ascii.N_of_ascii c) in
  (n =? 32) || ((9 <=? n) && (n <=? 13)).

(** [%02d] and [%04d]. *)
Definition fmt2 (n : Z) : string :=
  String (digit_char (n / 10)) (String (digit_char (n mod 10)) "").
Definition fmt4 (n : Z) : string :=
  String (digit_char (n / 1000))
    (String (digit_char (n / 100 mod 10))
       (String (digit_char (n / 10 mod 10))
          (String (digit_char (n mod 10)) ""))).

(** The longest prefix of digits (most significant first) and the rest. *)
Fixpoint span_digits (s : string) : list Z * string :=
  match s with
  | String c s' =>
      match digit_of c with
      | Some d => let (ds, r) := span_digits s' in (d :: ds, r)
      | None => ([], s)
      end
  | EmptyString => ([], s)
  end.

(** The string without its leading white space. *)
Fixpoint drop_spaces (s : string) : string :=
  match s with
  | String c s' => if is_space c then drop_spaces s' else s
  | EmptyString => s
  end.

(** [s.split(sep)] for a one-character separator. *)
Fixpoint split (sep : ascii) (s : string) : list string :=
  match s with
  | EmptyString => [EmptyString]
  | String c s' =>
      if Ascii.eqb c sep then EmptyString :: split sep s'
      else match split sep s' with
           | h :: t => String c h :: t
           | [] => [String c EmptyString]
           end
  end.

(** [s.lower()] on ASCII. *)
Definition lower_char (c : ascii) : ascii :=
  let n := Ascii.N_of_ascii c in
  if ((65 <=? n) && (n <=? 90))%N then Ascii.ascii_of_N (n + 32) else c.
Fixpoint lower (s : string) : string :=
  match s with
  | EmptyString => EmptyString
  | String c s' => String (lower_char c) (lower s')
  end.

(** [sep.join(l)]. *)
Fixpoint join (sep : string) (l : list string) : string :=
  match l with
  | [] => EmptyString
  | [x] => x
  | x :: l' => x +:+ sep +:+ join sep l'
  end.
End Str.

(** ** [datetime]: the part of the library that [date_list] uses *)

Module Datetime.
Import Str.

(** A naive [datetime]; the format of [date_list] has no fraction of a
    second, so the microsecond is always 0 and is left out. *)
Record datetime : Type := mkdatetime {
  year : Z; month : Z; day : Z; hour : Z; minute : Z; second : Z
}.

Definition MINYEAR : Z := 1.
Definition MAXYEAR : Z := 9999.

Definition is_leap (y : Z) : bool :=
  (y mod 4 =? 0) && (negb (y mod 100 =? 0) || (y mod 400 =? 0)).

Definition days_in_month (y m : Z) : Z :=
  match m with
  | 1 => 31 | 2 => if is_leap y then 29 else 28 | 3 => 31 | 4 => 30
  | 5 => 31 | 6 => 30 | 7 => 31 | 8 => 31 | 9 => 30 | 10 => 31
  | 11 => 30 | 12 => 31 | _ => 0
  end.

(** What the constructor [datetime(y, m, d, H, M, S)] accepts; anything
    else is a [ValueError]. *)
Definition valid (d : datetime) : bool :=
  (MINYEAR <=? year d) && (year d <=? MAXYEAR)
  && (1 <=? month d) && (month d <=? 12)
  && (1 <=? day d) && (day d <=? days_in_month (year d) (month d))
  && (0 <=? hour d) && (hour d <=? 23)
  && (0 <=? minute d) && (minute d <=? 59)
  && (0 <=? second d) && (second d <=? 59).

(** [a < b]: the fields compared in order, as tuples are. *)
Definition ltb (a b : datetime) : bool :=
  match year a ?= year b with
  | Lt => true | Gt => false
  | Eq =>
    match month a ?= month b with
    | Lt => true | Gt => false
    | Eq =>
      match day a ?= day b with
      | Lt => true | Gt => false
      | Eq =>
        match hour a ?= hour b with
        | Lt => true | Gt => false
        | Eq =>
          match minute a ?= minute b with
          | Lt => true | Gt => false
          | Eq => second a <? second b
          end
        end
      end
    end
  end.

(** [d + timedelta(hours=1)]: the same minute and second of the next hour
    of the proleptic Gregorian calendar; [OverflowError] when that hour
    lies after year [MAXYEAR]. *)
Definition add_hour (d : datetime) : outcome datetime :=
  if hour d + 1 <? 24 then
    Return (mkdatetime (year d) (month d) (day d) (hour d + 1) (minute d) (second d))
  else if day d + 1 <=? days_in_month (year d) (month d) then
    Return (mkdatetime (year d) (month d) (day d + 1) 0 (minute d) (second d))
  else if month d + 1 <=? 12 then
    Return (mkdatetime (year d) (month d + 1) 1 0 (minute d) (second d))
  else if year d + 1 <=? MAXYEAR then
    Return (mkdatetime (year d + 1) 1 1 0 (minute d) (second d))
  else Raise OverflowError.

(** [date.toordinal()]: days since 0001-01-01, which is day 1. *)
Definition days_before_year (y : Z) : Z :=
  (y - 1) * 365 + (y - 1) / 4 - (y - 1) / 100 + (y - 1) / 400.
Definition days_before_month (y m : Z) : Z :=
  match m with
  | 1 => 0 | 2 => 31 | 3 => 59 | 4 => 90 | 5 => 120 | 6 => 151 | 7 => 181
  | 8 => 212 | 9 => 243 | 10 => 273 | 11 => 304 | 12 => 334 | _ => 0
  end + (if (2 <? m) && is_leap y then 1 else 0).
Definition toordinal (y m d : Z) : Z :=
  days_before_year y + days_before_month y m + d.

(** The hour a [datetime] falls in, counted from the calendar's origin,
    and the second likewise. *)
Definition hour_index (d : datetime) : Z :=
  toordinal (year d) (month d) (day d) * 24 + hour d.
Definition second_index (d : datetime) : Z :=
  hour_index d * 3600 + minute d * 60 + second d.

(** The value of one or two digits. *)
Definition number (ds : list Z) : Z := fold_left (fun acc d => acc * 10 + d) ds 0.

(** One numeric field of the format as [_strptime] compiles it to a
    regular expression: [%m] is [1[0-2]|0[1-9]|[1-9]], [%d] is
    [3[01]|[12]\d|0[1-9]|[1-9]| [1-9]], [%H] is [2[0-3]|[0-1]\d|\d],
    [%M] is [[0-5]\d|\d] and [%S] is [6[0-1]|[0-5]\d|\d].  Every field is
    followed by a character that is no digit or by the end of the string,
    so the field is the whole run of digits found there.  [lo] is the
    least value of a two-digit form and of a one-digit form. *)
Definition field (lo1 lo2 hi : Z) (s : string) : option (Z * string) :=
  let (ds, r) := span_digits s in
  match ds with
  | [a] => if lo1 <=? a then Some (a, r) else None
  | [a; b] => let n := number ds in
              if (lo2 <=? n) && (n <=? hi) then Some (n, r) else None
  | _ => None
  end.

Definition field_Y (s : string) : option (Z * string) :=
  let (ds, r) := span_digits s in
  match ds with
  | [_; _; _; _] => Some (number ds, r)
  | _ => None
  end.

Definition field_d (s : string) : option (Z * string) :=
  match s with
  | String " " s' =>
      match s' with
      | String c r =>
          match digit_of c with
          | Some a => if 1 <=? a then Some (a, r) else None
          | None => None
          end
      | EmptyString => None
      end
  | _ => field 1 1 31 s
  end.

(** A literal character of the format. *)
Definition literal (c : ascii) (s : string) : option string :=
  match s with
  | String c' r => if Ascii.eqb c' c then Some r else None
  | EmptyString => None
  end.

(** The blank of the format, compiled to [\s+]. *)
Definition blanks (s : string) : option string :=
  match s with
  | String c r => if is_space c then Some (drop_spaces r) else None
  | EmptyString => None
  end.

(** The fields of a string in the format ['%Y-%m-%d %H:%M:%S']; the whole
    string has to be used up. *)
Definition scan (s : string) : option datetime :=
  '(y, s) ← field_Y s;
  s ← literal "-" s;
  '(m, s) ← field 1 1 12 s;
  s ← literal "-" s;
  '(d, s) ← field_d s;
  s ← blanks s;
  '(H, s) ← field 0 0 23 s;
  s ← literal ":" s;
  '(Mi, s) ← field 0 0 59 s;
  s ← literal ":" s;
  '(Se, s) ← field 0 0 61 s;
  match s with
  | EmptyString => Some (mkdatetime y m d H Mi Se)
  | _ => None
  end.

(** [datetime.strptime(s, '%Y-%m-%d %H:%M:%S')]. *)
Definition strptime (s : string) : outcome datetime :=
  match scan s with
  | Some d => if valid d then Return d else Raise ValueError
  | None => Raise ValueError
  end.

(** The label [YYYYMMDDTHH] of the hour of a [datetime]. *)
Definition hour_label (d : datetime) : string :=
  fmt4 (year d) +:+ fmt2 (month d) +:+ fmt2 (day d) +:+ "T" +:+ fmt2 (hour d).

(** [d.strftime('%Y%m%dT%H')]: in Python 2 the [strftime] methods of
    [datetime] refuse a year before 1900 with a [ValueError]. *)
Definition strftime (d : datetime) : outcome string :=
  if year d <? 1900 then Raise ValueError else Return (hour_label d).

(** The timestamp in the fixed-width form [YYYY-MM-DD HH:MM:SS]. *)
Definition isoformat (d : datetime) : string :=
  fmt4 (year d) +:+ "-" +:+ fmt2 (month d) +:+ "-" +:+ fmt2 (day d) +:+ " "
  +:+ fmt2 (hour d) +:+ ":" +:+ fmt2 (minute d) +:+ ":" +:+ fmt2 (second d).

(** The hour that a label [YYYYMMDDTHH] names. *)
Definition label_hour (s : string) : option Z :=
  let (ds, r) := span_digits s in
  match ds, r with
  | [y1; y2; y3; y4; m1; m2; d1; d2], String "T" r' =>
      let (hs, r'') := span_digits r' in
      match hs, r'' with
      | [h1; h2], EmptyString =>
          Some (toordinal (number [y1; y2; y3; y4]) (number [m1; m2])
                  (number [d1; d2]) * 24 + number [h1; h2])
      | _, _ => None
      end
  | _, _ => None
  end.
End Datetime.

(** ** [date_list] *)

Import Datetime.

(** The [while] loop of [date_list]: [date_times] is the list built so far. *)
Fixpoint date_list_loop (fuel : nat) (date_time end_date : datetime)
    (date_times : list string) : outcome (list string) :=
  if Datetime.ltb date_time end_date then
    match fuel with
    | O => OutOfFuel
    | S fuel' =>
        match add_hour date_time with
        | Return date_time' =>
            match strftime date_time' with
            | Return label =>
                date_list_loop fuel' date_time' end_date (date_times ++ [label])
            | Raise e => Raise e
            | OutOfFuel => OutOfFuel
            end
        | Raise e => Raise e
        | OutOfFuel => OutOfFuel
        end
    end
  else Return date_times.

(** [date_list(first_date, second_date)], lines 91-112.  The loop gets one
    unit of fuel for every hour between the two dates and one more. *)
Definition date_list (first_date second_date : string) : outcome (list string) :=
  let start_date := if String.ltb first_date second_date then first_date else second_date in
  let end_date := if String.ltb first_date second_date then second_date else first_date in
  match strptime start_date with
  | Return start_date =>
      match strptime end_date with
      | Return end_date =>
          match strftime start_date with
          | Return label =>
              date_list_loop
                (S (Z.to_nat (hour_index end_date - hour_index start_date)))
                start_date end_date [label]
          | Raise e => Raise e
          | OutOfFuel => OutOfFuel
          end
      | Raise e => Raise e
      | OutOfFuel => OutOfFuel
      end
  | Raise e => Raise e
  | OutOfFuel => OutOfFuel
  end.

(** ** The driver catalog: [Cabled.cabled_drivers_raw] *)

Module Catalog.
(** A cell of the data frame read with [dtype=str]: a string, or the
    missing value [nan]. *)
Inductive cell : Type :=
  | NaN
  | Str (s : string).

(** A row of the frame; the index of a row is its position. *)
Record row : Type := mkrow {
  Reference_Designator : cell;
  Driver : cell;
  Type_ : cell
}.

(** [==] of a cell and a string, and of two cells: [nan] equals nothing,
    itself included. *)
Definition eq_str (c : cell) (s : string) : bool :=
  match c with
  | Str t => bool_decide (t = s)
  | NaN => false
  end.
Definition eq_cell (a b : cell) : bool :=
  match a, b with
  | Str s, Str t => bool_decide (s = t)
  | _, _ => false
  end.

(** [column.shift(1)]: every value moves one row down, the first row
    gets [nan]. *)
Definition shift1 (column : list cell) : list cell :=
  match column with
  | [] => []
  | _ :: _ => NaN :: removelast column
  end.

(** Line 54: [df.loc[df['Type'] == 'None', ['Type']] = df['Reference Designator']]. *)
Definition fill_type (df : list row) : list row :=
  (fun r =>
     if eq_str (Type_ r) "None"
     then mkrow (Reference_Designator r) (Driver r) (Reference_Designator r)
     else r) <$> df.

(** Line 55: the mask and the shifted column are both computed before the
    assignment. *)
Definition fold_refdes (df : list row) : list row :=
  zip_with (fun r above =>
              if eq_cell (Reference_Designator r) (Type_ r)
              then mkrow above (Driver r) (Type_ r)
              else r)
           df (shift1 (Reference_Designator <$> df)).

(** [request_cabled_raw()], lines 51-56, after [pd.read_csv] has returned
    the frame [df]. *)
Definition request_cabled_raw (df : list row) : list row :=
  fold_refdes (fill_type df).

(** The rows selected by [df['Reference Designator'] == refdes]. *)
Definition select (cabled_drivers_raw : list row) (refdes : string) : list row :=
  filter (fun r => eq_str (Reference_Designator r) refdes = true) cabled_drivers_raw.

(** [get_driver(refdes)], lines 59-63: [.iloc[0]] of no row is an
    [IndexError]. *)
Definition get_driver (cabled_drivers_raw : list row) (refdes : string) : outcome cell :=
  match select cabled_drivers_raw refdes with
  | r :: _ => Return (Driver r)
  | [] => Raise IndexError
  end.

(** [get_reader_type(refdes)], lines 66-78. *)
Definition get_reader_type (cabled_drivers_raw : list row) (refdes : string) : list cell :=
  Type_ <$> filter (fun r => eq_str (Type_ r) "nan" = false)
                   (select cabled_drivers_raw refdes).

(** [is_cabled(refdes)], lines 81-88. *)
Definition is_cabled (cabled_drivers_raw : list row) (refdes : string) : bool :=
  match select cabled_drivers_raw refdes with
  | [] => false
  | _ :: _ => true
  end.
End Catalog.

(** ** The process and its surroundings *)

(** How [subprocess.call] ends: the player exits, or the alarm goes off
    while the call is waiting and [timeout_handler] raises. *)
Inductive call_result : Type :=
  | Exited (status : Z)
  | TimedOut.

(** What the process does, in order: the calls of [glob.glob], [logging],
    [signal.alarm] and [subprocess.call], and, as marks in the trace, the
    answers of the gate of line 204 and the calls of [playback] by [main]. *)
Inductive event : Type :=
  | EvGlob (pattern : string) (found : bool)
  | EvInfo (message : string)
  | EvWarning (message : string)
  | EvAlarm (seconds : Z)
  | EvCall (command : string) (r : call_result)
  | EvGate (refdes : string) (missing_date : string * string) (answer : bool)
  | EvPlayback (refdes : string) (dates : list string).

(** The state of a run: the events so far (oldest first), the pickle files
    on disk with the mapping each one holds, and the dictionary that the
    local variable [previous_ingests] of [main] refers to. *)
Record process : Type := mkprocess {
  events : list event;
  files : gmap string (gmap string (list (string * string)));
  previous_ingests_var : gmap string (list (string * string))
}.

(** The file system and the player answer as they please; an answer may
    depend on everything that happened before. *)
Record environment : Type := mkenvironment {
  glob_glob : list event -> string -> bool;
  subprocess_call : list event -> string -> call_result
}.

Definition emit (e : event) : M process unit :=
  modify (fun p => mkprocess (events p ++ [e]) (files p) (previous_ingests_var p)).

Definition glob (env : environment) (pattern : string) : M process bool :=
  fun p =>
    let found := glob_glob env (events p) pattern in
    (Return found, mkprocess (events p ++ [EvGlob pattern found]) (files p) (previous_ingests_var p)).

(** [call(command, shell=True)]: the exit status, or [TimeoutException]
    raised from inside the call. *)
Definition call (env : environment) (command : string) : M process Z :=
  fun p =>
    let r := subprocess_call env (events p) command in
    let p' := mkprocess (events p ++ [EvCall command r]) (files p) (previous_ingests_var p) in
    match r with
    | Exited status => (Return status, p')
    | TimedOut => (Raise TimeoutException, p')
    end.

(** [try: body / except TimeoutException: handler / else: orelse]. *)
Definition try_except_TimeoutException_else {S A B}
    (body : M S A) (handler : M S B) (orelse : M S B) : M S B :=
  fun s =>
    match body s with
    | (Return _, s') => orelse s'
    | (Raise TimeoutException, s') => handler s'
    | (Raise e, s') => (Raise e, s')
    | (OutOfFuel, s') => (OutOfFuel, s')
    end.

(** [for x in l: body]. *)
Fixpoint for_each {S A} (l : list A) (body : A -> M S unit) : M S unit :=
  match l with
  | [] => ret tt
  | x :: l' => body x;; for_each l' body
  end.

(** ** [playback] *)

Import Catalog.

Definition main_directory : string := "/rsn_cabled/rsn_data/DVT_Data".

(** [l[i]] of a list: [IndexError] out of range. *)
Definition index {A} (l : list A) (i : nat) : outcome A :=
  match l !! i with
  | Some x => Return x
  | None => Raise IndexError
  end.

(** [' '.join(cells)]: a [nan] among the items is a [TypeError]. *)
Fixpoint join_cells (l : list cell) : outcome (list string) :=
  match l with
  | [] => Return []
  | Str s :: l' =>
      match join_cells l' with
      | Return ss => Return (s :: ss)
      | r => r
      end
  | NaN :: _ => Raise TypeError
  end.
Definition space_join (l : list cell) : outcome string :=
  match join_cells l with
  | Return ss => Return (Str.join " " ss)
  | Raise e => Raise e
  | OutOfFuel => OutOfFuel
  end.

Definition timeout_message (playback_command : string) : string :=
  playback_command +:+ " Took more than 90 seconds. Timing out this ingestion.".

(** The body of the inner loop, lines 129-147. *)
Definition playback_one (env : environment) (driver : cell)
    (node instrument refdes event_url particle_url : string)
    (reader : cell) (date : string) : M process unit :=
  let directory :=
    Str.join "/" [main_directory; node; instrument] +:+ Str.join "*" [""; date; ""] in
  found ← glob env directory;
  if found : bool then
    playback_command ← lift (space_join
      [Str "playback"; reader; driver; Str refdes; Str event_url;
       Str particle_url; Str directory]);
    emit (EvInfo playback_command);;
    emit (EvAlarm 90);;
    try_except_TimeoutException_else
      (call env playback_command)
      (emit (EvWarning (timeout_message playback_command)))
      (emit (EvAlarm 0))
  else ret tt.

(** [playback(refdes, event_url, particle_url, missing_dates)], lines
    115-147; [cabled_drivers_raw] is the value of the class attribute.
    [signal.signal] installs [timeout_handler], so that an alarm going off
    raises [TimeoutException]: that is the [TimedOut] answer of [call]. *)
Definition playback (cabled_drivers_raw : list row) (env : environment)
    (refdes event_url particle_url : string) (missing_dates : list string)
    : M process unit :=
  driver ← lift (get_driver cabled_drivers_raw refdes);
  let reader_list := get_reader_type cabled_drivers_raw refdes in
  node ← lift (index (Str.split "-" refdes) 1);
  let node := Str.lower node in
  instrument ← lift (index (Str.split "-" refdes) 3);
  for_each reader_list (fun reader =>
    for_each missing_dates (fun date =>
      playback_one env driver node instrument refdes event_url particle_url
        reader date)).

(** ** [main] *)

(** The module [list_missing_dates], which [main] imports. *)
Record reporter : Type := mkreporter {
  get_refdes_list : string -> list string;
  get_missing_data_list : string -> string -> list (string * string)
}.

(** [main] calls [load_previous_ingests] and [is_in_previous_ingests] by
    their bare names.  Python looks a bare name up in the globals of the
    module when the call is reached, and raises [NameError] when it is not
    bound there.  The model takes what the two names are bound to as an
    argument: [None] is an unbound name, [Some f] a name bound to [f], where
    [f] reads the pickle files, or answers for the dictionary it is given
    and may change it in place. *)
Record globals : Type := mkglobals {
  global_load_previous_ingests :
    option (gmap string (gmap string (list (string * string)))
            -> outcome (gmap string (list (string * string))));
  global_is_in_previous_ingests :
    option (gmap string (list (string * string)) -> string -> string * string
            -> outcome bool * gmap string (list (string * string)))
}.

(** The module as it is: neither name is defined at top level (both are
    methods of the class [PreviousIngests]). *)
Definition module_globals : globals := mkglobals None None.

Definition set_previous_ingests (d : gmap string (list (string * string)))
  : M process unit :=
  modify (fun p => mkprocess (events p) (files p) d).

(** Line 185: [previous_ingests = load_previous_ingests()]. *)
Definition call_load_previous_ingests (g : globals) : M process unit :=
  match global_load_previous_ingests g with
  | None => raise (NameError "load_previous_ingests")
  | Some f =>
      p ← get;
      d ← lift (f (files p));
      set_previous_ingests d
  end.

(** Line 204: [is_in_previous_ingests(previous_ingests, refdes, missing_date)]. *)
Definition call_is_in_previous_ingests (g : globals) (refdes : string)
    (missing_date : string * string) : M process bool :=
  match global_is_in_previous_ingests g with
  | None => raise (NameError "is_in_previous_ingests")
  | Some f =>
      answer ← (fun p =>
        let (r, d) := f (previous_ingests_var p) refdes missing_date in
        (r, mkprocess (events p) (files p) d));
      emit (EvGate refdes missing_date answer);;
      ret answer
  end.

(** The body of the inner loop of [main], lines 204-207. *)
Definition main_one (g : globals) (cabled_drivers_raw : list row)
    (env : environment) (event_url particle_url refdes : string)
    (missing_date : string * string) : M process unit :=
  answer ← call_is_in_previous_ingests g refdes missing_date;
  if negb answer then
    dates ← lift (date_list missing_date.1 missing_date.2);
    emit (EvPlayback refdes dates);;
    playback cabled_drivers_raw env refdes event_url particle_url dates
  else ret tt.

(** Lines 202-207, over the items of [missing_data_dict] in the order in
    which the dictionary yields them. *)
Definition main_loop (g : globals) (cabled_drivers_raw : list row)
    (env : environment) (event_url particle_url : string)
    (items : list (string * list (string * string))) : M process unit :=
  for_each items (fun item =>
    for_each item.2 (fun missing_date =>
      main_one g cabled_drivers_raw env event_url particle_url item.1 missing_date)).

(** Lines 195-199. *)
Definition missing_data (cabled_drivers_raw : list row) (rep : reporter)
    (server : string) (refdes_list : list string)
  : gmap string (list (string * string)) :=
  foldl (fun missing_data_dict refdes =>
           if is_cabled cabled_drivers_raw refdes then
             match get_missing_data_list rep refdes server with
             | [] => missing_data_dict
             | missing_data_list => <[refdes := missing_data_list]> missing_data_dict
             end
           else missing_data_dict)
        ∅ refdes_list.

(** A string is true when it is not empty. *)
Definition truthy (s : string) : bool :=
  match s with
  | EmptyString => false
  | String _ _ => true
  end.

(** [main()], lines 176-207, with the three command line arguments that
    [docopt] hands over and the frame that [pd.read_csv] returns (or the
    exception it raises).  A dictionary is gone through in an order that
    Python does not fix; [map_to_list] is one such order. *)
Definition main (g : globals) (read_csv : outcome (list row)) (rep : reporter)
    (env : environment) (event_url particle_url server : string)
    : M process unit :=
  if truthy event_url && truthy particle_url && truthy server then
    set_previous_ingests ∅;;
    p ← get;
    (if bool_decide (is_Some (files p !! "previous_ingest.pickle"))
     then call_load_previous_ingests g else ret tt);;
    df ← lift read_csv;
    let cabled_drivers_raw := request_cabled_raw df in
    let refdes_list := get_refdes_list rep server in
    let missing_data_dict := missing_data cabled_drivers_raw rep server refdes_list in
    main_loop g cabled_drivers_raw env event_url particle_url
      (map_to_list missing_data_dict)
  else ret tt.

(** ** The playback loop as the spec words it (4.5) *)

(** The events of a loop whose body, started after [history], adds the
    events [step history x] for the item [x]. *)
Fixpoint trace_of {A} (step : list event -> A -> list event)
    (history : list event) (l : list A) : list event :=
  match l with
  | [] => []
  | x :: l' =>
      let evs := step history x in
      evs ++ trace_of step (history ++ evs) l'
  end.

(** Steps 1 and 3: the directory pattern of a slice and the command of a
    (reader type, slice) pair. *)
Definition directory_pattern (node instrument date : string) : string :=
  main_directory +:+ "/" +:+ node +:+ "/" +:+ instrument +:+ "*" +:+ date +:+ "*".
Definition player_command
    (reader driver refdes event_url particle_url directory : string) : string :=
  "playback " +:+ reader +:+ " " +:+ driver +:+ " " +:+ refdes +:+ " "
  +:+ event_url +:+ " " +:+ particle_url +:+ " " +:+ directory.

(** Steps 2, 4 and 5 for one pair: no matching path, no invocation; else
    the command is logged, the 90 second alarm is set and the player is
    called once; a timeout is answered by one warning that names the
    command, a normal end by clearing the alarm.  Either way the pair is
    done. *)
Definition isolated_invocation (env : environment) (history : list event)
    (pair : string * string) : list event :=
  let (directory, command) := pair in
  if glob_glob env history directory then
    let before := [EvGlob directory true; EvInfo command; EvAlarm 90] in
    match subprocess_call env (history ++ before) command with
    | TimedOut =>
        before ++ [EvCall command TimedOut; EvWarning (timeout_message command)]
    | Exited status =>
        before ++ [EvCall command (Exited status); EvAlarm 0]
    end
  else [EvGlob directory false].

(** The (pattern, command) pairs in the order of the two loops: reader
    type outside, slice inside. *)
Definition invocation_pairs (readers : list string)
    (driver node instrument refdes event_url particle_url : string)
    (dates : list string) : list (string * string) :=
  reader ← readers;
  date ← dates;
  let directory := directory_pattern node instrument date in
  [(directory,
    player_command reader driver refdes event_url particle_url directory)].

(** The patterns looked up with [glob.glob], the commands whose call timed
    out and the messages of the warnings, each in order. *)
Definition glob_patterns (evs : list event) : list string :=
  omap (fun e => match e with EvGlob pattern _ => Some pattern | _ => None end) evs.
Definition timed_out (evs : list event) : list string :=
  omap (fun e => match e with EvCall command TimedOut => Some command | _ => None end) evs.
Definition warnings (evs : list event) : list string :=
  omap (fun e => match e with EvWarning message => Some message | _ => None end) evs.

(** Events of [playback] itself. *)
Definition inner (e : event) : Prop :=
  match e with
  | EvGate _ _ _ | EvPlayback _ _ => False
  | _ => True
  end.

(** A computation keeps [J] when every state it ends in, with or without
    an exception, satisfies [J] if the state it started in did. *)
Definition preserves {A} (J : process -> Prop) (m : M process A) : Prop :=
  forall p, J p -> J (m p).2.

(** [q] is [p] after some events of [playback]. *)
Definition quiet_after (p q : process) : Prop :=
  files q = files p
  /\ previous_ingests_var q = previous_ingests_var p
  /\ exists evs, events q = events p ++ evs /\ Forall inner evs.

(** ** A small run *)

Module Sample.
Definition refdes : string := "RS01SLBS-LJ01A-05-HYDLFA".

Definition catalog : list row :=
  [mkrow (Str refdes) (Str "hydlf") (Str "hydlf_sample")].

(** Two gaps of one instrument that share two hours. *)
Definition gaps : list (string * string) :=
  [("2020-01-01 00:00:00", "2020-01-01 02:00:00");
   ("2020-01-01 01:00:00", "2020-01-01 03:00:00")].

Definition rep : reporter :=
  mkreporter (fun _ => [refdes]) (fun _ _ => gaps).

(** The same instrument with nothing missing. *)
Definition no_gaps : reporter :=
  mkreporter (fun _ => [refdes]) (fun _ _ => []).

(** No data on disk for any slice; a player that would exit at once. *)
Definition no_data : environment :=
  mkenvironment (fun _ _ => false) (fun _ _ => Exited 0).

(** Data for every slice; the first call of the player times out, the
    later ones exit. *)
Definition first_times_out : environment :=
  mkenvironment (fun _ _ => true)
    (fun history _ =>
       if existsb (fun e => match e with EvCall _ _ => true | _ => false end) history
       then Exited 0 else TimedOut).

(** A ledger file of an earlier run that knows the instrument. *)
Definition disk : gmap string (gmap string (list (string * string))) :=
  {["previous_ingest.pickle" := {[refdes := []]}]}.

Definition fresh (d : gmap string (gmap string (list (string * string)))) : process :=
  mkprocess [] d ∅.
End Sample.

(** A string that does not start with a digit. *)
Definition no_digit (s : string) : Prop := Str.span_digits s = ([], s).

(** The arguments of [date_list] in the order the function gives them
    (lines 98-99): the lesser string first. *)
Definition start_date_of (first_date second_date : string) : string :=
  if String.ltb first_date second_date then first_date else second_date.
Definition end_date_of (first_date second_date : string) : string :=
  if String.ltb first_date second_date then second_date else first_date.

(** The last hour of the calendar at the minute and second of [d]. *)
Definition last_hour (d : datetime) : datetime :=
  mkdatetime MAXYEAR 12 31 23 (minute d) (second d).

(** The number of hour steps of the loop of [date_list] from [s] to [e]:
    the seconds between them rounded up to whole hours. *)
Definition hour_steps (s e : datetime) : Z :=
  Z.max 0 ((second_index e - second_index s + 3599) / 3600).

(** ** The events of a run of [playback] *)





(** The process once [main] has run line 182. *)
Definition after_line_182 (p : process) : process :=
  mkprocess (events p) (files p) ∅.

(** ** Catalog folding, row by row *)

(** A row that the load moves to the row above: its Type is the sentinel
    ['None'] or its own Reference Designator. *)
Definition continuation (r : row) : bool :=
  match Reference_Designator r with
  | Str own => eq_str (Type_ r) "None" || eq_str (Type_ r) own
  | NaN => false
  end.

(** The reader types of [refdes] read off the source rows in file order,
    [above] being the Reference Designator of the row before the first: a
    continuation row gives its own Reference Designator to the reference
    designator of the row above it, any other row gives its Type to its
    own reference designator. *)
Fixpoint reader_types_folded (above : cell) (df : list row) (refdes : string)
  : list cell :=
  match df with
  | [] => []
  | r :: rest =>
      (if continuation r
       then (if eq_str above refdes then [Reference_Designator r] else [])
       else (if eq_str (Reference_Designator r) refdes then [Type_ r] else []))
      ++ reader_types_folded (Reference_Designator r) rest refdes
  end.

(** * Properties *)

(** ** The ledger gate *)

Module LedgerFacts.
Import Ledger.
Section facts.
Context {A : Type} `{EqDecision A}.
Implicit Types (self : PreviousIngests A) (refdes : string) (x : A).

(** On a reference designator that is no key of the dictionary the
    subscript of the [except] branch raises the [KeyError] again: nothing
    is recorded and nothing is returned. *)
Lemma is_in_previous_ingests_absent_key self refdes x :
  previous_ingests self !! refdes = None ->
  is_in_previous_ingests refdes x self = (Raise KeyError, self).
Proof.
  intros Hnone.
  unfold is_in_previous_ingests, try_except_KeyError, getitem_append.
  unfold mbind, M_bind, bind, getitem. rewrite Hnone. simpl.
  by rewrite Hnone.
Qed.

(** On a key that is there, a new value is appended and [False] comes
    back. *)
Lemma is_in_previous_ingests_new self refdes x l :
  previous_ingests self !! refdes = Some l ->
  x ∉ l ->
  is_in_previous_ingests refdes x self
  = (Return false,
     mkPreviousIngests (<[refdes := l ++ [x]]> (previous_ingests self))).
Proof.
  intros Hl Hx.
  unfold is_in_previous_ingests, try_except_KeyError, getitem_append.
  unfold mbind, M_bind, bind, getitem. rewrite Hl. simpl.
  rewrite bool_decide_eq_false_2 by done. by rewrite Hl.
Qed.

(** A value that is recorded is found; the dictionary stays as it is. *)
Lemma is_in_previous_ingests_old self refdes x l :
  previous_ingests self !! refdes = Some l ->
  x ∈ l ->
  is_in_previous_ingests refdes x self = (Return true, self).
Proof.
  intros Hl Hx.
  unfold is_in_previous_ingests, try_except_KeyError.
  unfold mbind, M_bind, bind, getitem. rewrite Hl. simpl.
  by rewrite bool_decide_eq_true_2.
Qed.

Lemma records_app_new l x :
  x ∉ l -> length (filter (fun y => y = x) (l ++ [x])) = 1%nat.
Proof.
  intros Hx. rewrite filter_app, length_app.
  assert (filter (fun y => y = x) l = []) as ->.
  { clear -Hx. induction l as [|y l IH]; [done|].
    rewrite filter_cons_False; [apply IH|]; set_solver. }
  rewrite filter_cons_True by done. done.
Qed.

(** Where the key is present the gate works as the spec describes it:
    [true] then [false], one record, and the second call changes nothing. *)
Lemma shouldAttempt_twice_present_key self refdes x l :
  previous_ingests self !! refdes = Some l ->
  x ∉ l ->
  exists self1,
    shouldAttempt refdes x self = (Return true, self1)
    /\ shouldAttempt refdes x self1 = (Return false, self1)
    /\ records self1 refdes x = 1%nat.
Proof.
  intros Hl Hx.
  eexists. unfold shouldAttempt, mbind, M_bind, bind.
  rewrite (is_in_previous_ingests_new _ _ _ l) by done. simpl.
  split; [reflexivity|].
  rewrite (is_in_previous_ingests_old _ _ _ (l ++ [x])).
  - split; [reflexivity|].
    unfold records. simpl. rewrite lookup_insert_eq. simpl.
    by apply records_app_new.
  - simpl. by rewrite lookup_insert_eq.
  - set_solver.
Qed.
End facts.

(** C2 (fused ledger gate).  The claim includes the state with no entry at
    all for the reference designator.  From the empty ledger the first call
    of [shouldAttempt] does not return [true]: the method raises [KeyError]
    out of its own [except KeyError] branch, and the pair is not recorded. *)
Theorem shouldAttempt_empty_ledger_raises :
  shouldAttempt "RS01SLBS-LJ01A-05-HYDLFA" "20200101T00" (init (A := string))
  = (Raise KeyError, init)
  /\ records (init (A := string)) "RS01SLBS-LJ01A-05-HYDLFA" "20200101T00" = 0%nat.
Proof.
  split; [|reflexivity].
  unfold shouldAttempt, mbind, M_bind, bind.
  by rewrite is_in_previous_ingests_absent_key.
Qed.

(** C3 (ledger persistence round trip).  Whatever mapping is written and
    whatever was on disk before, [write_previous_ingests] leaves the file
    that [load_previous_ingests] opens as it was, and the load of a fresh
    process yields no mapping: it raises [IOError] or returns [None], with
    the attribute of the fresh object still the empty dictionary. *)
Theorem load_after_write_yields_no_mapping :
  forall (A : Type) (self : PreviousIngests A)
         (m : gmap string (list A)) (disk : gmap string (gmap string (list A))),
    let disk' := (write_previous_ingests self m disk).2 in
    disk' !! "previous_ingest.pickle" = disk !! "previous_ingest.pickle"
    /\ disk' !! "previous_ingests.pickle" = Some m
    /\ load_previous_ingests init disk'
       = (match disk !! "previous_ingest.pickle" with
          | Some _ => Return tt
          | None => Raise IOError
          end, disk').
Proof.
  intros A self m disk disk'.
  assert (Hsame : disk' !! "previous_ingest.pickle" = disk !! "previous_ingest.pickle").
  { subst disk'. unfold write_previous_ingests, modify. simpl.
    by rewrite lookup_insert_ne. }
  split; [done|]. split.
  { subst disk'. unfold write_previous_ingests, modify. simpl.
    by rewrite lookup_insert_eq. }
  unfold load_previous_ingests. rewrite Hsame.
  by destruct (disk !! "previous_ingest.pickle").
Qed.

(** The round trip at one mapping, from an empty disk. *)
Example load_after_write_example :
  load_previous_ingests (init (A := string))
    (write_previous_ingests init {["RS01SLBS-LJ01A-05-HYDLFA" := ["20200101T00"]]} ∅).2
  = (Raise IOError,
     {["previous_ingests.pickle" := {["RS01SLBS-LJ01A-05-HYDLFA" := ["20200101T00"]]}]}).
Proof. reflexivity. Qed.
End LedgerFacts.

(** ** The catalog *)

Module CatalogFacts.
Import Catalog.

Lemma length_shift1 (column : list cell) : length (shift1 column) = length column.
Proof.
  destruct column as [|c column]; [done|].
  unfold shift1. cbn [length]. f_equal.
  generalize c. induction column as [|c' column IH]; intros c0; [done|].
  cbn [removelast length]. f_equal. apply IH.
Qed.

Lemma lookup_removelast {A} (l : list A) (i : nat) (x : A) :
  l !! i = Some x -> (S i < length l)%nat -> removelast l !! i = Some x.
Proof.
  revert i. induction l as [|y l IH]; intros i; [done|].
  destruct l as [|z l].
  - simpl. lia.
  - destruct i as [|i]; [done|].
    cbn [removelast]. intros Hi Hlen. rewrite lookup_cons_ne_0 by done.
    simpl. apply IH; [done|]. simpl in *. lia.
Qed.

(** The value that [shift(1)] puts at a row that has a row above it. *)
Lemma lookup_shift1 (column : list cell) (i : nat) (above c : cell) :
  column !! i = Some above -> column !! S i = Some c ->
  shift1 column !! S i = Some above.
Proof.
  intros Hi HS. destruct column as [|c0 column]; [done|].
  unfold shift1. rewrite lookup_cons_ne_0 by done. rewrite Nat.pred_succ.
  apply lookup_removelast; [done|].
  apply lookup_lt_Some in HS. simpl in *. lia.
Qed.

Lemma lookup_fill_type (df : list row) (i : nat) (r : row) :
  df !! i = Some r ->
  fill_type df !! i
  = Some (if eq_str (Type_ r) "None"
          then mkrow (Reference_Designator r) (Driver r) (Reference_Designator r)
          else r).
Proof. intros Hi. unfold fill_type. by rewrite list_lookup_fmap, Hi. Qed.

Lemma Reference_Designator_fill_type (df : list row) :
  Reference_Designator <$> fill_type df = Reference_Designator <$> df.
Proof.
  unfold fill_type. rewrite <- list_fmap_compose. apply list_fmap_ext.
  intros _ r _. simpl. by destruct (eq_str (Type_ r) "None").
Qed.

Lemma lookup_fold_refdes (df : list row) (i : nat) (r : row) (above : cell) :
  df !! i = Some r ->
  shift1 (Reference_Designator <$> df) !! i = Some above ->
  fold_refdes df !! i
  = Some (if eq_cell (Reference_Designator r) (Type_ r)
          then mkrow above (Driver r) (Type_ r)
          else r).
Proof.
  intros Hi Hs. unfold fold_refdes. rewrite lookup_zip_with, Hi. simpl.
  by rewrite Hs.
Qed.

Lemma eq_cell_refl (s : string) : eq_cell (Str s) (Str s) = true.
Proof. simpl. by rewrite bool_decide_eq_true_2. Qed.

(** The row below another one that holds the sentinel, after the load. *)
Lemma sentinel_row_after_load (df : list row) (i : nat) (above r : row) (own : string) :
  df !! i = Some above ->
  df !! S i = Some r ->
  Type_ r = Str "None" ->
  Reference_Designator r = Str own ->
  request_cabled_raw df !! S i
  = Some (mkrow (Reference_Designator above) (Driver r) (Str own)).
Proof.
  intros Hi HS Hty Hown. unfold request_cabled_raw.
  rewrite (lookup_fold_refdes _ _ (mkrow (Str own) (Driver r) (Str own))
             (Reference_Designator above)).
  - cbn [Reference_Designator Type_ Driver]. by rewrite eq_cell_refl.
  - rewrite (lookup_fill_type _ _ r) by done. rewrite Hty. simpl.
    rewrite ?bool_decide_eq_true_2 by done. by rewrite Hown.
  - rewrite Reference_Designator_fill_type.
    eapply lookup_shift1; rewrite list_lookup_fmap.
    + by rewrite Hi.
    + by rewrite HS.
Qed.

Lemma sentinel_row_selected (df : list row) (i : nat) (above r : row) (own p : string) :
  df !! i = Some above ->
  df !! S i = Some r ->
  Type_ r = Str "None" ->
  Reference_Designator r = Str own ->
  Reference_Designator above = Str p ->
  mkrow (Str p) (Driver r) (Str own) ∈ select (request_cabled_raw df) p.
Proof.
  intros Hi HS Hty Hown Hp. unfold select. apply list_elem_of_filter. split.
  - simpl. by rewrite bool_decide_eq_true_2.
  - eapply list_elem_of_lookup_2.
    rewrite (sentinel_row_after_load df i above r own) by done. by rewrite Hp.
Qed.

(** C10 (continuation row).  A row that holds the sentinel ['None'] in its
    Type column, and that has a row above it, comes out of
    [request_cabled_raw] with its own Reference Designator as Type and with
    the Reference Designator of the row immediately above (as read from the
    file) as Reference Designator; the driver is kept.  The row is then one
    of the rows selected for the reference designator of the row above. *)
Theorem continuation_row_rewrite :
  forall (df : list row) (i : nat) (above r : row) (own : string),
    df !! i = Some above ->
    df !! S i = Some r ->
    Type_ r = Str "None" ->
    Reference_Designator r = Str own ->
    request_cabled_raw df !! S i
    = Some (mkrow (Reference_Designator above) (Driver r) (Str own))
    /\ forall p, Reference_Designator above = Str p ->
         mkrow (Str p) (Driver r) (Str own) ∈ select (request_cabled_raw df) p.
Proof.
  intros df i above r own Hi HS Hty Hown. split.
  - by apply (sentinel_row_after_load df i above r own).
  - intros p Hp. by apply (sentinel_row_selected df i above r own p).
Qed.

Lemma continuation_row_rewrite_witness :
  request_cabled_raw
    [mkrow (Str "RS01SBPS-PC01A-4A-CTDPFA103") (Str "ctdpf_optode") (Str "ctdpf_sbe43_sample");
     mkrow (Str "ctdpf_optode_calibration_coefficients") (Str "ctdpf_optode") (Str "None")]
    !! 1%nat
  = Some (mkrow (Str "RS01SBPS-PC01A-4A-CTDPFA103") (Str "ctdpf_optode")
            (Str "ctdpf_optode_calibration_coefficients")).
Proof.
  refine (proj1 (continuation_row_rewrite _ 0
                  (mkrow (Str "RS01SBPS-PC01A-4A-CTDPFA103") (Str "ctdpf_optode")
                     (Str "ctdpf_sbe43_sample"))
                  (mkrow (Str "ctdpf_optode_calibration_coefficients")
                     (Str "ctdpf_optode") (Str "None"))
                  "ctdpf_optode_calibration_coefficients"
                  _ _ _ _)); reflexivity.
Defined.

(** The first row has no row above it: its Reference Designator becomes
    [nan]. *)
Example continuation_first_row :
  request_cabled_raw [mkrow (Str "R") (Str "d") (Str "None")]
  = [mkrow NaN (Str "d") (Str "R")].
Proof. reflexivity. Qed.

(** C7 (degenerate row), as the claim states it: the row with an empty
    Type would give its own InstrumentRef exactly one reader type, its own
    string.  Whether the empty Type is the sentinel ['None'] of the file, the
    missing value or the string ['nan'], the entry of the row's own
    InstrumentRef is not that: with the sentinel the row goes to the
    instrument of the row above. *)
Lemma degenerate_row_counterexample :
  get_reader_type
    (request_cabled_raw
       [mkrow (Str "RS01SLBS-LJ01A-05-HYDLFA") (Str "hydlf") (Str "hydlf_sample");
        mkrow (Str "RS01SLBS-LJ01A-12-CTDPFB") (Str "ctdpf") (Str "None")])
    "RS01SLBS-LJ01A-12-CTDPFB" = []
  /\ get_reader_type
       (request_cabled_raw
          [mkrow (Str "RS01SLBS-LJ01A-05-HYDLFA") (Str "hydlf") (Str "hydlf_sample");
           mkrow (Str "RS01SLBS-LJ01A-12-CTDPFB") (Str "ctdpf") (Str "None")])
       "RS01SLBS-LJ01A-05-HYDLFA"
     = [Str "hydlf_sample"; Str "RS01SLBS-LJ01A-12-CTDPFB"]
  /\ get_reader_type
       (request_cabled_raw [mkrow (Str "RS01SLBS-LJ01A-12-CTDPFB") (Str "ctdpf") NaN])
       "RS01SLBS-LJ01A-12-CTDPFB" = [NaN]
  /\ get_reader_type
       (request_cabled_raw [mkrow (Str "RS01SLBS-LJ01A-12-CTDPFB") (Str "ctdpf") (Str "nan")])
       "RS01SLBS-LJ01A-12-CTDPFB" = [].
Proof. repeat split. Qed.

(** C7, amended.  A row whose Type column holds the sentinel ['None'] and
    that has a row above it carries, in the loaded catalog, the Reference
    Designator of the row above and its own InstrumentRef string as Type:
    that string is a reader type of the Reference Designator of the row
    above. *)
Theorem degenerate_row_is_reader_type_of_row_above :
  forall (df : list row) (i : nat) (above r : row) (own p : string),
    df !! i = Some above ->
    df !! S i = Some r ->
    Type_ r = Str "None" ->
    Reference_Designator r = Str own ->
    Reference_Designator above = Str p ->
    own <> "nan" ->
    request_cabled_raw df !! S i = Some (mkrow (Str p) (Driver r) (Str own))
    /\ Str own ∈ get_reader_type (request_cabled_raw df) p.
Proof.
  intros df i above r own p Hi HS Hty Hown Hp Hnan. split.
  { rewrite (sentinel_row_after_load df i above r own) by done. by rewrite Hp. }
  unfold get_reader_type.
  apply (list_elem_of_fmap_2' Type_ _ (mkrow (Str p) (Driver r) (Str own))); [|done].
  apply list_elem_of_filter.
  split; [|by apply (sentinel_row_selected df i above r own p)].
  simpl. by rewrite bool_decide_eq_false_2.
Qed.

Lemma degenerate_row_is_reader_type_of_row_above_witness :
  Str "RS01SLBS-LJ01A-12-CTDPFB"
  ∈ get_reader_type
      (request_cabled_raw
         [mkrow (Str "RS01SLBS-LJ01A-05-HYDLFA") (Str "hydlf") (Str "hydlf_sample");
          mkrow (Str "RS01SLBS-LJ01A-12-CTDPFB") (Str "ctdpf") (Str "None")])
      "RS01SLBS-LJ01A-05-HYDLFA".
Proof.
  refine (proj2 (degenerate_row_is_reader_type_of_row_above _ 0
           (mkrow (Str "RS01SLBS-LJ01A-05-HYDLFA") (Str "hydlf") (Str "hydlf_sample"))
           (mkrow (Str "RS01SLBS-LJ01A-12-CTDPFB") (Str "ctdpf") (Str "None"))
           "RS01SLBS-LJ01A-12-CTDPFB" "RS01SLBS-LJ01A-05-HYDLFA" _ _ _ _ _ _));
    [reflexivity .. | discriminate].
Defined.

(** ** Folding, row by row *)

(** The row that the load makes of a source row [r] under a row with
    Reference Designator [above]. *)
Lemma request_cabled_raw_cons (above : cell) (r : row) (df : list row) :
  zip_with (fun r above =>
              if eq_cell (Reference_Designator r) (Type_ r)
              then mkrow above (Driver r) (Type_ r)
              else r)
    (fill_type (r :: df))
    (removelast (above :: (Reference_Designator <$> fill_type (r :: df))))
  = (if continuation r
     then mkrow above (Driver r) (Reference_Designator r)
     else if eq_str (Type_ r) "None"
          then mkrow (Reference_Designator r) (Driver r) (Reference_Designator r)
          else r)
    :: zip_with (fun r above =>
                   if eq_cell (Reference_Designator r) (Type_ r)
                   then mkrow above (Driver r) (Type_ r)
                   else r)
         (fill_type df)
         (removelast (Reference_Designator r :: (Reference_Designator <$> fill_type df))).
Proof.
  rewrite !Reference_Designator_fill_type.
  unfold fill_type. cbn [fmap list_fmap].
  change (list_fmap _ _ ?f df) with (f <$> df).
  assert (Hshift : removelast (above :: Reference_Designator r
                                 :: (Reference_Designator <$> df))
                   = above :: removelast (Reference_Designator r
                                            :: (Reference_Designator <$> df)))
    by reflexivity.
  rewrite Hshift. cbn [zip_with]. f_equal.
  unfold continuation.
  destruct r as [[|own] driver [|type]]; cbn; try done.
  - by destruct (bool_decide (type = "None")).
  - destruct (bool_decide (type = "None")) eqn:Hnone; cbn.
    + by rewrite (bool_decide_eq_true_2 (own = own)).
    + rewrite (bool_decide_ext (own = type) (type = own)) by done.
      clear Hnone. case_bool_decide; [by subst|done].
Qed.

Lemma get_reader_type_cons (r : row) (df : list row) (refdes : string) :
  get_reader_type (r :: df) refdes
  = (if eq_str (Reference_Designator r) refdes && negb (eq_str (Type_ r) "nan")
     then [Type_ r] else [])
    ++ get_reader_type df refdes.
Proof.
  unfold get_reader_type, select. rewrite filter_cons.
  destruct (eq_str (Reference_Designator r) refdes); cbn [andb].
  - rewrite decide_True by done. rewrite filter_cons.
    destruct (eq_str (Type_ r) "nan"); cbn [negb].
    + by rewrite decide_False by done.
    + by rewrite decide_True by done.
  - by rewrite decide_False by done.
Qed.

Lemma filter_nan_singleton (c : cell) :
  filter (fun c => eq_str c "nan" = false) [c] = if eq_str c "nan" then [] else [c].
Proof.
  rewrite filter_cons.
  destruct (eq_str c "nan"); [by rewrite decide_False | by rewrite decide_True].
Qed.

Lemma reader_types_folded_from (above : cell) (df : list row) (refdes : string) :
  get_reader_type
    (zip_with (fun r above =>
                 if eq_cell (Reference_Designator r) (Type_ r)
                 then mkrow above (Driver r) (Type_ r)
                 else r)
       (fill_type df)
       (removelast (above :: (Reference_Designator <$> fill_type df))))
    refdes
  = filter (fun c => eq_str c "nan" = false) (reader_types_folded above df refdes).
Proof.
  revert above. induction df as [|r df IH]; intros above; [done|].
  rewrite request_cabled_raw_cons, get_reader_type_cons, IH.
  cbn [reader_types_folded]. rewrite filter_app. f_equal.
  destruct (continuation r) eqn:Hc.
  - cbn [Reference_Designator Type_].
    destruct (eq_str above refdes); cbn [andb]; [|done].
    rewrite filter_nan_singleton. by destruct (eq_str (Reference_Designator r) "nan").
  - assert (Hrow : eq_str (Reference_Designator r) refdes = true ->
                   eq_str (Type_ r) "None" = false).
    { unfold continuation in Hc. destruct (Reference_Designator r); [done|].
      intros _. by apply orb_false_iff in Hc as [? _]. }
    destruct (eq_str (Reference_Designator r) refdes) eqn:Hsel.
    + rewrite Hrow, Hsel by done. cbn [andb].
      rewrite filter_nan_singleton. by destruct (eq_str (Type_ r) "nan").
    + destruct (eq_str (Type_ r) "None"); cbn [Reference_Designator];
        by rewrite Hsel.
Qed.

(** C6 (catalog folding), as the claim states it: an InstrumentRef that
    appears in several source rows with distinct non-empty Type values would
    get those values, in file order and without duplicates.  In the first
    frame the instrument has the two values [hydlf_sample] and
    [hydlf_status]; the continuation row below them is keyed to it by the
    load and brings [hydlf_sample] once more: the result has three values
    and a duplicate.  In the second frame the instrument [CTDPFB] has the
    two values [RS01SLBS-LJ01A-12-CTDPFB] and [ctdpf_sample]; the row with
    the first is keyed to the row above it, and the value is not returned. *)
Lemma reader_types_counterexample :
  get_reader_type
    (request_cabled_raw
       [mkrow (Str "RS01SLBS-LJ01A-05-HYDLFA") (Str "hydlf") (Str "hydlf_sample");
        mkrow (Str "RS01SLBS-LJ01A-05-HYDLFA") (Str "hydlf") (Str "hydlf_status");
        mkrow (Str "hydlf_sample") (Str "hydlf") (Str "None")])
    "RS01SLBS-LJ01A-05-HYDLFA"
  = [Str "hydlf_sample"; Str "hydlf_status"; Str "hydlf_sample"]
  /\ ~ NoDup
        (get_reader_type
           (request_cabled_raw
              [mkrow (Str "RS01SLBS-LJ01A-05-HYDLFA") (Str "hydlf") (Str "hydlf_sample");
               mkrow (Str "RS01SLBS-LJ01A-05-HYDLFA") (Str "hydlf") (Str "hydlf_status");
               mkrow (Str "hydlf_sample") (Str "hydlf") (Str "None")])
           "RS01SLBS-LJ01A-05-HYDLFA")
  /\ get_reader_type
       (request_cabled_raw
          [mkrow (Str "RS01SLBS-LJ01A-05-HYDLFA") (Str "hydlf") (Str "hydlf_sample");
           mkrow (Str "RS01SLBS-LJ01A-12-CTDPFB") (Str "ctdpf")
             (Str "RS01SLBS-LJ01A-12-CTDPFB");
           mkrow (Str "RS01SLBS-LJ01A-12-CTDPFB") (Str "ctdpf") (Str "ctdpf_sample")])
       "RS01SLBS-LJ01A-12-CTDPFB"
     = [Str "ctdpf_sample"].
Proof.
  split; [reflexivity|]. split; [|reflexivity].
  intros Hnd. vm_compute in Hnd.
  apply NoDup_cons in Hnd as [Hnotin _]. apply Hnotin. set_solver.
Qed.

(** C6, amended.  For every frame and every InstrumentRef, the reader
    types are what going through the source rows in file order gives: a
    row whose Type is the sentinel ['None'] or its own Reference Designator
    gives its Reference Designator to the InstrumentRef of the row directly
    above it (to none if it is the first row); every other row gives its
    Type to its own InstrumentRef; the string ['nan'] is left out and no
    duplicate is removed. *)
Theorem reader_types_in_file_order :
  forall (df : list row) (refdes : string),
    get_reader_type (request_cabled_raw df) refdes
    = filter (fun c => eq_str c "nan" = false) (reader_types_folded NaN df refdes).
Proof.
  intros df refdes. rewrite <- reader_types_folded_from.
  unfold request_cabled_raw, fold_refdes, shift1.
  destruct (fill_type df) as [|r' df'] eqn:Hfill; [|done].
  by destruct df.
Qed.
End CatalogFacts.

(** ** The order of the arguments of [date_list] *)

Module ExpansionOrder.

(** The order on [str] is a strict total order: of two strings at most one
    is below the other, and if neither is they are the same string. *)
Lemma ltb_asym (a b : string) : String.ltb a b = true -> String.ltb b a = false.
Proof.
  unfold String.ltb. rewrite (String.compare_antisym a b).
  by destruct (String.compare b a).
Qed.

Lemma ltb_total (a b : string) :
  String.ltb a b = false -> String.ltb b a = false -> a = b.
Proof.
  unfold String.ltb. rewrite (String.compare_antisym a b).
  destruct (String.compare b a) eqn:Hc; simpl; try discriminate.
  intros _ _. symmetry. by apply String.compare_eq_iff.
Qed.

(** C9 (symmetry).  [date_list] gives the same result for its two arguments
    in either order, for any two strings at all: it sorts them before it
    does anything else. *)
Theorem date_list_symmetric :
  forall a b : string, date_list a b = date_list b a.
Proof.
  intros a b. unfold date_list.
  destruct (String.ltb a b) eqn:Hab, (String.ltb b a) eqn:Hba; try reflexivity.
  - apply ltb_asym in Hab. congruence.
  - by rewrite (ltb_total a b).
Qed.

Example date_list_symmetric_example :
  date_list "2020-01-01 02:00:00" "2020-01-01 00:00:00"
  = Return ["20200101T00"; "20200101T01"; "20200101T02"].
Proof. reflexivity. Qed.
End ExpansionOrder.

(** ** Timeouts in [playback] *)

Module PlaybackFacts.

Lemma append_cons (c : ascii) (s t : string) :
  String c s +:+ t = String c (s +:+ t).
Proof. reflexivity. Qed.

Lemma append_nil_r (s : string) : s +:+ "" = s.
Proof.
  induction s as [|c s IH]; [done|]. by rewrite append_cons, IH.
Qed.

Lemma append_assoc (a b c : string) : (a +:+ b) +:+ c = a +:+ (b +:+ c).
Proof.
  induction a as [|x a IH]; [done|]. by rewrite !append_cons, IH.
Qed.

Lemma directory_pattern_eq (node instrument date : string) :
  Str.join "/" [main_directory; node; instrument] +:+ Str.join "*" [""; date; ""]
  = directory_pattern node instrument date.
Proof.
  unfold directory_pattern. cbn [Str.join].
  rewrite !append_assoc.
  change ("" +:+ "*" +:+ date +:+ "*" +:+ "") with ("*" +:+ date +:+ "*" +:+ "").
  by rewrite append_nil_r.
Qed.

Lemma space_join_eq (reader driver refdes event_url particle_url directory : string) :
  space_join [Str "playback"; Str reader; Str driver; Str refdes; Str event_url;
              Str particle_url; Str directory]
  = Return (player_command reader driver refdes event_url particle_url directory).
Proof. reflexivity. Qed.

Lemma bind_lift_Return {S A B} (a : A) (k : A -> M S B) (s : S) :
  (lift (Return a) ≫= k) s = k a s.
Proof. reflexivity. Qed.

Lemma for_each_fmap {S A B} (f : A -> B) (l : list A) (body : B -> M S unit) :
  for_each (f <$> l) body = for_each l (fun x => body (f x)).
Proof.
  induction l as [|x l IH]; [done|]. cbn [fmap list_fmap for_each]. by rewrite <- IH.
Qed.

Section traces.
Context {A : Type}.
Implicit Types (step : list event -> A -> list event) (l : list A).

Lemma trace_of_app step history l1 l2 :
  trace_of step history (l1 ++ l2)
  = trace_of step history l1
    ++ trace_of step (history ++ trace_of step history l1) l2.
Proof.
  revert history. induction l1 as [|x l1 IH]; intros history.
  - simpl. by rewrite app_nil_r.
  - cbn [trace_of app]. rewrite IH.
    by rewrite <- !(assoc_L (++)).
Qed.

(** A loop whose body always returns and only adds events adds the
    events of its items in order. *)
Lemma for_each_trace step (body : A -> M process unit) l :
  (forall x p,
      body x p
      = (Return tt,
         mkprocess (events p ++ step (events p) x) (files p)
           (previous_ingests_var p))) ->
  forall p,
    for_each l body p
    = (Return tt,
       mkprocess (events p ++ trace_of step (events p) l) (files p)
         (previous_ingests_var p)).
Proof.
  intros Hbody. induction l as [|x l IH]; intros p.
  - simpl. unfold ret. rewrite app_nil_r. by destruct p.
  - cbn [for_each trace_of]. unfold mbind, M_bind, bind.
    rewrite Hbody, IH. cbn [events files previous_ingests_var].
    by rewrite <- !(assoc_L (++)).
Qed.
End traces.

Lemma trace_of_bind {A B} (step : list event -> B -> list event)
    (f : A -> list B) (history : list event) (l : list A) :
  trace_of (fun h x => trace_of step h (f x)) history l
  = trace_of step history (l ≫= f).
Proof.
  revert history. induction l as [|x l IH]; intros history; [done|].
  cbn [trace_of]. rewrite bind_cons, trace_of_app. by rewrite IH.
Qed.

Lemma trace_of_bind_singleton {A B} (step : list event -> B -> list event)
    (g : A -> B) (history : list event) (l : list A) :
  trace_of step history (l ≫= fun x => [g x])
  = trace_of (fun h x => step h (g x)) history l.
Proof.
  revert history. induction l as [|x l IH]; intros history; [done|].
  rewrite bind_cons. cbn [app trace_of]. by rewrite IH.
Qed.

(** One turn of the inner loop is one isolated invocation. *)
Lemma playback_one_isolated (env : environment)
    (driver node instrument refdes event_url particle_url reader date : string)
    (p : process) :
  playback_one env (Str driver) node instrument refdes event_url particle_url
    (Str reader) date p
  = (Return tt,
     mkprocess
       (events p
        ++ isolated_invocation env (events p)
             (directory_pattern node instrument date,
              player_command reader driver refdes event_url particle_url
                (directory_pattern node instrument date)))
       (files p) (previous_ingests_var p)).
Proof.
  unfold playback_one. rewrite directory_pattern_eq.
  set (directory := directory_pattern node instrument date).
  unfold mbind, M_bind, bind, glob, isolated_invocation.
  destruct (glob_glob env (events p) directory) eqn:Hglob.
  - rewrite space_join_eq. unfold lift, emit, modify.
    cbn [events files previous_ingests_var].
    unfold try_except_TimeoutException_else, call.
    cbn [events files previous_ingests_var].
    rewrite <- !(assoc_L (++)). cbn [app].
    destruct (subprocess_call env _ _); cbn [events files previous_ingests_var];
      by rewrite <- !(assoc_L (++)).
  - by unfold ret.
Qed.

(** C8 (timeout isolation).  For an instrument with a driver and reader
    types in the catalog, [playback] returns normally whatever the player
    does, and the events it adds are those of one isolated invocation per
    (reader type, slice) pair, in the order of the loops: every pair is
    looked up once; a pair with data gets the 90 second alarm and one call;
    a call that times out is followed by the warning with its command and
    then by the next pair. *)
Theorem playback_timeout_isolation :
  forall (cabled_drivers_raw : list Catalog.row) (env : environment)
         (refdes event_url particle_url : string) (dates : list string)
         (driver node instrument : string) (readers : list string) (p : process),
    get_driver cabled_drivers_raw refdes = Return (Str driver) ->
    get_reader_type cabled_drivers_raw refdes = Str <$> readers ->
    index (Str.split "-" refdes) 1 = Return node ->
    index (Str.split "-" refdes) 3 = Return instrument ->
    playback cabled_drivers_raw env refdes event_url particle_url dates p
    = (Return tt,
       mkprocess
         (events p
          ++ trace_of (isolated_invocation env) (events p)
               (invocation_pairs readers driver (Str.lower node) instrument
                  refdes event_url particle_url dates))
         (files p) (previous_ingests_var p)).
Proof.
  intros cabled env refdes event_url particle_url dates driver node instrument
    readers p Hdriver Hreaders Hnode Hinstrument.
  unfold playback. rewrite Hdriver, Hreaders, Hnode, Hinstrument.
  rewrite !bind_lift_Return, for_each_fmap.
  unfold invocation_pairs.
  rewrite <- (trace_of_bind (isolated_invocation env)).
  apply for_each_trace. intros reader q.
  rewrite trace_of_bind_singleton.
  apply for_each_trace. intros date q'.
  apply playback_one_isolated.
Qed.

Lemma playback_timeout_isolation_witness :
  playback Sample.catalog Sample.first_times_out Sample.refdes "qpid://event"
    "qpid://particle" ["20200101T00"; "20200101T01"] (Sample.fresh ∅)
  = (Return tt,
     mkprocess
       [EvGlob "/rsn_cabled/rsn_data/DVT_Data/lj01a/HYDLFA*20200101T00*" true;
        EvInfo "playback hydlf_sample hydlf RS01SLBS-LJ01A-05-HYDLFA qpid://event qpid://particle /rsn_cabled/rsn_data/DVT_Data/lj01a/HYDLFA*20200101T00*";
        EvAlarm 90;
        EvCall "playback hydlf_sample hydlf RS01SLBS-LJ01A-05-HYDLFA qpid://event qpid://particle /rsn_cabled/rsn_data/DVT_Data/lj01a/HYDLFA*20200101T00*" TimedOut;
        EvWarning "playback hydlf_sample hydlf RS01SLBS-LJ01A-05-HYDLFA qpid://event qpid://particle /rsn_cabled/rsn_data/DVT_Data/lj01a/HYDLFA*20200101T00* Took more than 90 seconds. Timing out this ingestion.";
        EvGlob "/rsn_cabled/rsn_data/DVT_Data/lj01a/HYDLFA*20200101T01*" true;
        EvInfo "playback hydlf_sample hydlf RS01SLBS-LJ01A-05-HYDLFA qpid://event qpid://particle /rsn_cabled/rsn_data/DVT_Data/lj01a/HYDLFA*20200101T01*";
        EvAlarm 90;
        EvCall "playback hydlf_sample hydlf RS01SLBS-LJ01A-05-HYDLFA qpid://event qpid://particle /rsn_cabled/rsn_data/DVT_Data/lj01a/HYDLFA*20200101T01*" (Exited 0);
        EvAlarm 0]
       ∅ ∅).
Proof.
  rewrite (playback_timeout_isolation Sample.catalog Sample.first_times_out
             Sample.refdes "qpid://event" "qpid://particle"
             ["20200101T00"; "20200101T01"] "hydlf" "LJ01A" "HYDLFA"
             ["hydlf_sample"] (Sample.fresh ∅) eq_refl eq_refl eq_refl eq_refl).
  reflexivity.
Defined.

(** What the events of the isolated invocations show: every pair is looked
    up, once and in order, whatever the calls before it did; and the
    warnings are those of the calls that timed out, one each, in order. *)
Lemma isolated_invocations_visit_every_pair (env : environment)
    (history : list event) (pairs : list (string * string)) :
  glob_patterns (trace_of (isolated_invocation env) history pairs) = pairs.*1.
Proof.
  revert history. induction pairs as [|[directory command] pairs IH];
    intros history; [done|].
  cbn [trace_of fmap list_fmap fst]. unfold glob_patterns in *.
  rewrite omap_app, IH. unfold isolated_invocation.
  destruct (glob_glob env history directory); [|done].
  by destruct (subprocess_call env _ command).
Qed.

Lemma isolated_invocations_warn_of_every_timeout (env : environment)
    (history : list event) (pairs : list (string * string)) :
  warnings (trace_of (isolated_invocation env) history pairs)
  = timeout_message <$> timed_out (trace_of (isolated_invocation env) history pairs).
Proof.
  revert history. induction pairs as [|[directory command] pairs IH];
    intros history; [done|].
  cbn [trace_of]. unfold warnings, timed_out in *.
  rewrite !omap_app, fmap_app, IH. f_equal. unfold isolated_invocation.
  destruct (glob_glob env history directory); [|done].
  by destruct (subprocess_call env _ command).
Qed.

(** Whatever the catalog holds, [playback] ends by returning, by an
    [IndexError] before its loops or by the [TypeError] of a missing value in
    a command: a [TimeoutException] never leaves it. *)
Lemma for_each_outcome {S A} (P : outcome unit -> Prop) (l : list A)
    (body : A -> M S unit) :
  P (Return tt) -> (forall x s, P (body x s).1) -> forall s, P (for_each l body s).1.
Proof.
  intros Hret Hbody. induction l as [|x l IH]; intros s; [done|].
  cbn [for_each]. unfold mbind, M_bind, bind.
  specialize (Hbody x s). destruct (body x s) as [[[]|e|] s']; simpl in *; auto.
Qed.

Lemma bind_no_timeout {S A B} (m : M S A) (k : A -> M S B) (s : S) :
  (m s).1 <> Raise TimeoutException ->
  (forall a s', (k a s').1 <> Raise TimeoutException) ->
  ((m ≫= k) s).1 <> Raise TimeoutException.
Proof.
  intros Hm Hk. unfold mbind, M_bind, bind.
  destruct (m s) as [[a|e|] s']; simpl in *;
    [apply Hk | intros [= ->]; by apply Hm | discriminate].
Qed.

Lemma playback_never_raises_TimeoutException (cabled_drivers_raw : list Catalog.row)
    (env : environment) (refdes event_url particle_url : string)
    (dates : list string) (p : process) :
  (playback cabled_drivers_raw env refdes event_url particle_url dates p).1
  <> Raise TimeoutException.
Proof.
  unfold playback.
  apply bind_no_timeout.
  { unfold lift, get_driver. simpl. by destruct (select _ _). }
  intros driver p1. apply bind_no_timeout.
  { unfold lift, index. simpl. by destruct (_ !! _). }
  intros node p2. apply bind_no_timeout.
  { unfold lift, index. simpl. by destruct (_ !! _). }
  intros instrument p3.
  apply (for_each_outcome (fun o => o <> Raise TimeoutException)); [done|].
  intros reader q.
  apply (for_each_outcome (fun o => o <> Raise TimeoutException)); [done|].
  intros date q'. unfold playback_one.
  apply bind_no_timeout; [done|]. intros [|] q1; [|done].
  apply bind_no_timeout.
  { unfold lift, space_join. by destruct reader, driver. }
  intros command q2.
  apply bind_no_timeout; [done|]. intros _ q3.
  apply bind_no_timeout; [done|]. intros _ q4.
  unfold try_except_TimeoutException_else, call, emit, modify.
  by destruct (subprocess_call env _ _).
Qed.
End PlaybackFacts.

(** ** [main]: what is kept across a run *)

Module MainFacts.
Import LedgerFacts.

Section preservation.
Context (J : process -> Prop).

Lemma preserves_ret {A} (a : A) : preserves J (ret a).
Proof. by intros p. Qed.

Lemma preserves_raise {A} (e : exn) : preserves J (raise (A := A) e).
Proof. by intros p. Qed.

Lemma preserves_lift {A} (o : outcome A) : preserves J (lift o).
Proof. by intros p. Qed.

Lemma preserves_get : preserves J get.
Proof. by intros p. Qed.

Lemma preserves_bind {A B} (m : M process A) (k : A -> M process B) :
  preserves J m -> (forall a, preserves J (k a)) -> preserves J (m ≫= k).
Proof.
  intros Hm Hk p Hp. specialize (Hm p Hp).
  unfold mbind, M_bind, bind. destruct (m p) as [[a|e|] p']; simpl in *; auto.
  by apply Hk.
Qed.

Lemma preserves_for_each {A} (l : list A) (body : A -> M process unit) :
  (forall x, preserves J (body x)) -> preserves J (for_each l body).
Proof.
  intros Hbody. induction l as [|x l IH]; simpl.
  - apply preserves_ret.
  - apply preserves_bind; auto.
Qed.

Lemma preserves_try_else {A B} (body : M process A) (handler orelse : M process B) :
  preserves J body -> preserves J handler -> preserves J orelse ->
  preserves J (try_except_TimeoutException_else body handler orelse).
Proof.
  intros Hb Hh Ho p Hp. specialize (Hb p Hp).
  unfold try_except_TimeoutException_else.
  destruct (body p) as [[a|e|] p']; simpl in *; auto.
  destruct e; simpl; auto.
Qed.

(** The steps of [playback] keep [J] if adding an event of [playback]
    does. *)
Hypothesis J_inner :
  forall p e, inner e -> J p ->
    J (mkprocess (events p ++ [e]) (files p) (previous_ingests_var p)).

Lemma preserves_emit (e : event) : inner e -> preserves J (emit e).
Proof. intros He p Hp. by apply J_inner. Qed.

Lemma preserves_glob (env : environment) (pattern : string) :
  preserves J (glob env pattern).
Proof. intros p Hp. by apply J_inner. Qed.

Lemma preserves_call (env : environment) (command : string) :
  preserves J (call env command).
Proof.
  intros p Hp. unfold call.
  destruct (subprocess_call env (events p) command); by apply J_inner.
Qed.

Lemma preserves_playback_one env driver node instrument refdes event_url
    particle_url reader date :
  preserves J (playback_one env driver node instrument refdes event_url
                 particle_url reader date).
Proof.
  unfold playback_one. apply preserves_bind; [apply preserves_glob|].
  intros [|]; [|apply preserves_ret].
  apply preserves_bind; [apply preserves_lift|]. intros command.
  apply preserves_bind; [by apply preserves_emit|]. intros _.
  apply preserves_bind; [by apply preserves_emit|]. intros _.
  apply preserves_try_else;
    [apply preserves_call | by apply preserves_emit | by apply preserves_emit].
Qed.

Lemma preserves_playback cabled env refdes event_url particle_url dates :
  preserves J (playback cabled env refdes event_url particle_url dates).
Proof.
  unfold playback.
  apply preserves_bind; [apply preserves_lift|]. intros driver.
  apply preserves_bind; [apply preserves_lift|]. intros node.
  apply preserves_bind; [apply preserves_lift|]. intros instrument.
  apply preserves_for_each. intros reader.
  apply preserves_for_each. intros date.
  apply preserves_playback_one.
Qed.
End preservation.

(** [playback] adds events of its own and touches neither the files nor
    the dictionary. *)
Lemma playback_quiet cabled env refdes event_url particle_url dates p :
  quiet_after p (playback cabled env refdes event_url particle_url dates p).2.
Proof.
  apply (preserves_playback (quiet_after p)).
  - intros q e He (Hf & Hv & evs & Hevs & Hin).
    split; [done|]. split; [done|].
    exists (evs ++ [e]). simpl. rewrite Hevs, <- (assoc_L (++)).
    split; [done|]. apply Forall_app. auto.
  - split; [done|]. split; [done|]. exists []. by rewrite app_nil_r.
Qed.

(** C4 (persist at the end of a run).  Whatever the two names are bound
    to and whatever the run meets, the pickle files are after [main] what
    they were before it: [main] has no call of [write_previous_ingests], so
    nothing that the gate recorded reaches the disk. *)
Theorem main_never_persists :
  forall (g : globals) (read_csv : outcome (list Catalog.row)) (rep : reporter)
         (env : environment) (event_url particle_url server : string)
         (p : process),
    files (main g read_csv rep env event_url particle_url server p).2 = files p.
Proof.
  intros g read_csv rep env event_url particle_url server p.
  set (J := fun q : process => files q = files p).
  assert (HJ : forall q e, inner e -> J q ->
             J (mkprocess (events q ++ [e]) (files q) (previous_ingests_var q)))
    by (intros q e _ Hq; exact Hq).
  assert (Hset : forall d, preserves J (set_previous_ingests d))
    by (intros d q Hq; exact Hq).
  assert (Hemit : forall e, preserves J (emit e)) by (intros e q Hq; exact Hq).
  cut (preserves J (main g read_csv rep env event_url particle_url server)).
  { intros Hmain. by apply Hmain. }
  unfold main. destruct (_ && _); [|apply preserves_ret].
  apply preserves_bind; [apply Hset|]. intros _.
  apply preserves_bind; [apply preserves_get|]. intros q.
  apply preserves_bind.
  { destruct (bool_decide _); [|apply preserves_ret].
    unfold call_load_previous_ingests.
    destruct (global_load_previous_ingests g); [|apply preserves_raise].
    apply preserves_bind; [apply preserves_get|]. intros q'.
    apply preserves_bind; [apply preserves_lift|]. intros d. apply Hset. }
  intros _. apply preserves_bind; [apply preserves_lift|]. intros df.
  unfold main_loop.
  apply preserves_for_each. intros item.
  apply preserves_for_each. intros missing_date.
  unfold main_one. apply preserves_bind.
  { unfold call_is_in_previous_ingests.
    destruct (global_is_in_previous_ingests g) as [f|]; [|apply preserves_raise].
    apply preserves_bind.
    - intros q' Hq'. simpl. by destruct (f _ _ _).
    - intros answer. apply preserves_bind; [apply Hemit|]. intros _.
      apply preserves_ret. }
  intros answer. destruct (negb answer); [|apply preserves_ret].
  apply preserves_bind; [apply preserves_lift|]. intros dates.
  apply preserves_bind; [apply Hemit|]. intros _.
  by apply preserves_playback.
Qed.

(** A run of the module as it is that ends normally: no ledger file, an
    instrument with nothing missing.  No pickle file is written. *)
Example main_normal_end_without_persist :
  let run := main module_globals (Return Sample.catalog) Sample.no_gaps Sample.no_data
               "qpid://event" "qpid://particle" "uframe-test" (Sample.fresh ∅) in
  run.1 = Return tt
  /\ files run.2 !! "previous_ingests.pickle" = None.
Proof. by vm_compute. Qed.

(** ** [main]: the unbound names *)

(** With the name of the gate unbound the run stops with a [NameError] at
    the first gate call, if not before, and no event is ever added.  The
    module as it is, with both names unbound, is such a run. *)
Lemma main_unbound_gate_no_events
    (load : option (gmap string (gmap string (list (string * string)))
                    -> outcome (gmap string (list (string * string)))))
    (read_csv : outcome (list Catalog.row)) (rep : reporter) (env : environment)
    (event_url particle_url server : string) (p : process) :
  events (main (mkglobals load None) read_csv rep env event_url particle_url server p).2
  = events p.
Proof.
  set (J := fun q : process => events q = events p).
  cut (preserves J (main (mkglobals load None) read_csv rep env event_url
                      particle_url server)).
  { intros Hmain. by apply Hmain. }
  unfold main. destruct (_ && _); [|apply preserves_ret].
  apply preserves_bind; [by intros q Hq|]. intros _.
  apply preserves_bind; [apply preserves_get|]. intros q.
  apply preserves_bind.
  { destruct (bool_decide _); [|apply preserves_ret].
    unfold call_load_previous_ingests. cbn [global_load_previous_ingests].
    destruct load as [f|]; [|apply preserves_raise].
    apply preserves_bind; [apply preserves_get|]. intros q'.
    apply preserves_bind; [apply preserves_lift|]. intros d. by intros q'' Hq''. }
  intros _. apply preserves_bind; [apply preserves_lift|]. intros df.
  unfold main_loop. apply preserves_for_each. intros item.
  apply preserves_for_each. intros missing_date.
  intros q0 Hq0. exact Hq0.
Qed.

Lemma main_as_shipped_hands_over_nothing
    (read_csv : outcome (list Catalog.row)) (rep : reporter) (env : environment)
    (event_url particle_url server : string) (p : process) :
  events (main module_globals read_csv rep env event_url particle_url server p).2
  = events p.
Proof. apply main_unbound_gate_no_events. Qed.

Lemma missing_data_snoc (cabled_drivers_raw : list Catalog.row) (rep : reporter)
    (server : string) (refdes_list : list string) (refdes : string) :
  missing_data cabled_drivers_raw rep server (refdes_list ++ [refdes])
  = if is_cabled cabled_drivers_raw refdes then
      match get_missing_data_list rep refdes server with
      | [] => missing_data cabled_drivers_raw rep server refdes_list
      | missing_data_list =>
          <[refdes := missing_data_list]>
            (missing_data cabled_drivers_raw rep server refdes_list)
      end
    else missing_data cabled_drivers_raw rep server refdes_list.
Proof. unfold missing_data. by rewrite foldl_app. Qed.

(** No reference designator is retained with an empty list of gaps. *)
Lemma missing_data_nonempty (cabled_drivers_raw : list Catalog.row) (rep : reporter)
    (server : string) (refdes_list : list string) (refdes : string)
    (gaps : list (string * string)) :
  missing_data cabled_drivers_raw rep server refdes_list !! refdes = Some gaps ->
  gaps <> [].
Proof.
  induction refdes_list as [|r l IH] using rev_ind; [done|].
  rewrite missing_data_snoc.
  destruct (is_cabled cabled_drivers_raw r); [|done].
  destruct (get_missing_data_list rep r server) as [|g gs] eqn:Hg; [done|].
  destruct (decide (refdes = r)) as [->|Hne].
  - rewrite lookup_insert_eq. by intros [= <-].
  - by rewrite lookup_insert_ne.
Qed.

(** [main] once the three arguments are there. *)
Lemma main_eq (g : globals) (read_csv : outcome (list Catalog.row)) (rep : reporter)
    (env : environment) (event_url particle_url server : string) (p : process) :
  truthy event_url = true -> truthy particle_url = true -> truthy server = true ->
  main g read_csv rep env event_url particle_url server p
  = match (if bool_decide (is_Some (files p !! "previous_ingest.pickle"))
           then call_load_previous_ingests g (after_line_182 p)
           else (Return tt, after_line_182 p)) with
    | (Return _, p1) =>
        match read_csv with
        | Return df =>
            main_loop g (request_cabled_raw df) env event_url particle_url
              (map_to_list (missing_data (request_cabled_raw df) rep server
                              (get_refdes_list rep server))) p1
        | Raise e => (Raise e, p1)
        | OutOfFuel => (OutOfFuel, p1)
        end
    | (Raise e, p1) => (Raise e, p1)
    | (OutOfFuel, p1) => (OutOfFuel, p1)
    end.
Proof.
  intros He Hp Hs. unfold main. rewrite He, Hp, Hs. cbn [andb].
  unfold mbind, M_bind, bind, set_previous_ingests, modify, get, after_line_182.
  cbn [events files previous_ingests_var].
  destruct (bool_decide _).
  - destruct (call_load_previous_ingests g _) as [[[]|e|] p1]; [|done..].
    unfold lift. by destruct read_csv.
  - unfold ret, lift. by destruct read_csv.
Qed.

(** The loops of [main] stop at the first gap when the gate raises there
    and leaves the process as it is. *)
Lemma main_loop_first_gap_raises (g : globals) (cabled_drivers_raw : list Catalog.row)
    (env : environment) (event_url particle_url : string)
    (m : gmap string (list (string * string))) (e : exn) (p : process) :
  (forall refdes gaps, m !! refdes = Some gaps -> gaps <> []) ->
  (forall refdes missing_date,
      call_is_in_previous_ingests g refdes missing_date p = (Raise e, p)) ->
  main_loop g cabled_drivers_raw env event_url particle_url (map_to_list m) p
  = (if bool_decide (m = ∅) then Return tt else Raise e, p).
Proof.
  intros Hne Hgate. unfold main_loop.
  destruct (map_to_list m) as [|[refdes gaps] items] eqn:Hitems.
  - apply map_to_list_empty_iff in Hitems as ->. by rewrite bool_decide_eq_true_2.
  - assert (m !! refdes = Some gaps) as Hm
      by (apply elem_of_map_to_list; rewrite Hitems; left).
    rewrite bool_decide_eq_false_2 by (intros ->; by rewrite lookup_empty in Hm).
    destruct gaps as [|missing_date gaps]; [by apply Hne in Hm|].
    cbn [for_each fst snd]. unfold main_one.
    unfold mbind, M_bind, bind. by rewrite Hgate.
Qed.


End MainFacts.

(** ** The calendar *)

Module CalendarFacts.
Import Datetime.

Lemma valid_spec (d : datetime) :
  valid d = true <->
  (MINYEAR <= year d <= MAXYEAR) /\ (1 <= month d <= 12)
  /\ (1 <= day d <= days_in_month (year d) (month d))
  /\ (0 <= hour d <= 23) /\ (0 <= minute d <= 59) /\ (0 <= second d <= 59).
Proof.
  unfold valid. rewrite !andb_true_iff, !Z.leb_le. tauto.
Qed.

(** Case analysis on an integer variable [n] known to lie in the [len]
    values from [lo] on. *)
Ltac enumerate n lo len :=
  let H := fresh "Hcase" in
  let l := eval vm_compute in (seqZ lo len) in
  assert (H : In n l)
    by (change l with (seqZ lo len); apply list_elem_of_In, elem_of_seqZ; lia);
  cbn [In] in H;
  repeat (destruct H as [<-|H]); [..|destruct H].

(** The twelve months. *)
Ltac months m := enumerate m 1 12.

Lemma days_in_month_bounds (y m : Z) :
  1 <= m <= 12 -> 28 <= days_in_month y m <= 31.
Proof. intros Hm. months m; simpl; destruct (is_leap y); lia. Qed.

(** A year later is 365 or 366 days later. *)
Lemma days_before_year_succ (y : Z) :
  days_before_year (y + 1)
  = days_before_year y + 365 + (if is_leap y then 1 else 0).
Proof.
  unfold days_before_year, is_leap.
  replace (y + 1 - 1) with y by lia.
  destruct (Z.eqb_spec (y mod 4) 0), (Z.eqb_spec (y mod 100) 0),
    (Z.eqb_spec (y mod 400) 0); simpl;
    Z.to_euclidean_division_equations; lia.
Qed.

Lemma days_before_year_mono (y1 y2 : Z) :
  y1 <= y2 -> days_before_year y1 <= days_before_year y2.
Proof.
  intros Hle. unfold days_before_year.
  Z.to_euclidean_division_equations. lia.
Qed.

(** A month later is that month's days later. *)
Lemma days_before_month_succ (y m : Z) :
  1 <= m < 12 ->
  days_before_month y (m + 1) = days_before_month y m + days_in_month y m.
Proof.
  intros Hm. unfold days_before_month.
  enumerate m 1 11; simpl; destruct (is_leap y); reflexivity.
Qed.

Lemma days_before_month_lt (y m1 m2 : Z) :
  1 <= m1 -> m1 < m2 -> m2 <= 12 ->
  days_before_month y m1 + days_in_month y m1 <= days_before_month y m2.
Proof.
  intros H1 H12 H2. unfold days_before_month.
  months m1; months m2; try lia; simpl; destruct (is_leap y); simpl; lia.
Qed.

Lemma days_before_month_last (y : Z) :
  days_before_month y 12 + 31 = 365 + (if is_leap y then 1 else 0).
Proof. unfold days_before_month. simpl. destruct (is_leap y); lia. Qed.

(** The day of a valid date lies in its year. *)
Lemma day_in_year (y m d : Z) :
  1 <= m <= 12 -> 1 <= d <= days_in_month y m ->
  1 <= days_before_month y m + d <= 365 + (if is_leap y then 1 else 0).
Proof.
  intros Hm Hd. unfold days_before_month.
  months m; simpl in *; destruct (is_leap y); simpl in *; lia.
Qed.

(** The order of [datetime] is the order of the seconds counted from the
    origin of the calendar. *)
Lemma toordinal_year_lt (y1 m1 d1 y2 m2 d2 : Z) :
  1 <= m1 <= 12 -> 1 <= d1 <= days_in_month y1 m1 ->
  1 <= m2 <= 12 -> 1 <= d2 <= days_in_month y2 m2 ->
  y1 < y2 -> toordinal y1 m1 d1 < toordinal y2 m2 d2.
Proof.
  intros Hm1 Hd1 Hm2 Hd2 Hy. unfold toordinal.
  pose proof (day_in_year y1 m1 d1 Hm1 Hd1).
  pose proof (day_in_year y2 m2 d2 Hm2 Hd2).
  pose proof (days_before_year_succ y1).
  pose proof (days_before_year_mono (y1 + 1) y2). lia.
Qed.

Lemma toordinal_month_lt (y m1 d1 m2 d2 : Z) :
  1 <= m1 <= 12 -> 1 <= d1 <= days_in_month y m1 ->
  1 <= m2 <= 12 -> 1 <= d2 <= days_in_month y m2 ->
  m1 < m2 -> toordinal y m1 d1 < toordinal y m2 d2.
Proof.
  intros Hm1 Hd1 Hm2 Hd2 Hm. unfold toordinal.
  pose proof (days_before_month_lt y m1 m2). lia.
Qed.

Lemma ltb_second_index (a b : datetime) :
  valid a = true -> valid b = true ->
  ltb a b = (second_index a <? second_index b).
Proof.
  intros (Hya & Hma & Hda & Hha & Hmia & Hsa)%valid_spec
         (Hyb & Hmb & Hdb & Hhb & Hmib & Hsb)%valid_spec.
  unfold ltb, second_index, hour_index.
  destruct (Z.compare_spec (year a) (year b)) as [Hy|Hy|Hy].
  - destruct (Z.compare_spec (month a) (month b)) as [Hm|Hm|Hm].
    + destruct (Z.compare_spec (day a) (day b)) as [Hd|Hd|Hd].
      * rewrite Hy, Hm, Hd.
        destruct (Z.compare_spec (hour a) (hour b)) as [Hh|Hh|Hh].
        -- rewrite Hh.
           destruct (Z.compare_spec (minute a) (minute b)) as [Hmi|Hmi|Hmi].
           ++ rewrite Hmi. destruct (Z.ltb_spec (second a) (second b));
                symmetry; [apply Z.ltb_lt | apply Z.ltb_ge]; lia.
           ++ symmetry. apply Z.ltb_lt. lia.
           ++ symmetry. apply Z.ltb_ge. lia.
        -- symmetry. apply Z.ltb_lt. lia.
        -- symmetry. apply Z.ltb_ge. lia.
      * rewrite Hy, Hm. unfold toordinal. symmetry. apply Z.ltb_lt. lia.
      * rewrite Hy, Hm. unfold toordinal. symmetry. apply Z.ltb_ge. lia.
    + rewrite Hy in *.
      pose proof (toordinal_month_lt (year b) (month a) (day a) (month b) (day b)
                    Hma Hda Hmb Hdb Hm).
      symmetry. apply Z.ltb_lt. lia.
    + rewrite Hy in *.
      pose proof (toordinal_month_lt (year b) (month b) (day b) (month a) (day a)
                    Hmb Hdb Hma Hda Hm).
      symmetry. apply Z.ltb_ge. lia.
  - pose proof (toordinal_year_lt _ _ _ _ _ _ Hma Hda Hmb Hdb Hy).
    symmetry. apply Z.ltb_lt. lia.
  - pose proof (toordinal_year_lt _ _ _ _ _ _ Hmb Hdb Hma Hda Hy).
    symmetry. apply Z.ltb_ge. lia.
Qed.

(** The hour of a valid [datetime] is the whole hours of its seconds. *)
Lemma hour_index_le (a b : datetime) :
  valid a = true -> valid b = true ->
  second_index a <= second_index b -> hour_index a <= hour_index b.
Proof.
  intros (_ & _ & _ & _ & Hmia & Hsa)%valid_spec
         (_ & _ & _ & _ & Hmib & Hsb)%valid_spec.
  unfold second_index. lia.
Qed.

(** The next hour. *)
Lemma add_hour_Return (d d' : datetime) :
  valid d = true -> add_hour d = Return d' ->
  valid d' = true /\ hour_index d' = hour_index d + 1
  /\ minute d' = minute d /\ second d' = second d.
Proof.
  intros Hv Hadd. pose proof Hv as (Hy & Hm & Hd & Hh & Hmi & Hs)%valid_spec.
  unfold add_hour in Hadd.
  destruct (Z.ltb_spec (hour d + 1) 24) as [H24|H24].
  { injection Hadd as <-. rewrite valid_spec. unfold hour_index. simpl. lia. }
  destruct (Z.leb_spec (day d + 1) (days_in_month (year d) (month d))) as [Hday|Hday].
  { injection Hadd as <-. rewrite valid_spec. unfold hour_index, toordinal. simpl. lia. }
  destruct (Z.leb_spec (month d + 1) 12) as [Hmon|Hmon].
  { injection Hadd as <-. rewrite valid_spec. unfold hour_index, toordinal. simpl.
    pose proof (days_before_month_succ (year d) (month d)).
    pose proof (days_in_month_bounds (year d) (month d + 1)). lia. }
  destruct (Z.leb_spec (year d + 1) MAXYEAR) as [Hyear|Hyear]; [|discriminate].
  injection Hadd as <-. rewrite valid_spec. unfold hour_index, toordinal. simpl.
  assert (month d = 12) as Hm12 by lia. rewrite Hm12 in *.
  assert (day d = 31) as Hd31 by (simpl in Hd, Hday; lia).
  pose proof (days_before_year_succ (year d)).
  pose proof (days_before_month_last (year d)).
  unfold MINYEAR, MAXYEAR in *.
  change (days_before_month (year d + 1) 1) with (0 + (if (2 <? 1) && is_leap (year d + 1) then 1 else 0)).
  simpl. lia.
Qed.

Lemma add_hour_year (d d' : datetime) :
  add_hour d = Return d' -> year d <= year d'.
Proof.
  unfold add_hour. repeat case_match; intros [= <-]; simpl; lia.
Qed.

(** Only the last hour of year 9999 has no next hour. *)
Lemma add_hour_Raise (d : datetime) (e : exn) :
  valid d = true -> add_hour d = Raise e ->
  e = OverflowError
  /\ d = mkdatetime MAXYEAR 12 31 23 (minute d) (second d).
Proof.
  intros (Hy & Hm & Hd & Hh & Hmi & Hs)%valid_spec Hadd.
  unfold add_hour in Hadd.
  destruct (Z.ltb_spec (hour d + 1) 24) as [H24|H24]; [discriminate|].
  destruct (Z.leb_spec (day d + 1) (days_in_month (year d) (month d))) as [Hday|Hday];
    [discriminate|].
  destruct (Z.leb_spec (month d + 1) 12) as [Hmon|Hmon]; [discriminate|].
  destruct (Z.leb_spec (year d + 1) MAXYEAR) as [Hyear|Hyear]; [discriminate|].
  injection Hadd as <-. split; [done|].
  assert (month d = 12) as Hm12 by lia. rewrite Hm12 in *.
  simpl in Hd, Hday. destruct d; simpl in *. f_equal; lia.
Qed.

Lemma add_hour_not_OutOfFuel (d : datetime) : add_hour d <> OutOfFuel.
Proof. unfold add_hour. repeat case_match; discriminate. Qed.
End CalendarFacts.

(** ** Timestamps and labels as strings *)

Module FormatFacts.
Import Str Datetime CalendarFacts.

(** The ten digits. *)
Ltac digits n := enumerate n 0 10.

Lemma digit_of_digit_char (n : Z) :
  0 <= n <= 9 -> digit_of (digit_char n) = Some n.
Proof. intros Hn. digits n; reflexivity. Qed.

Lemma digit_char_not_space (n : Z) (s : string) :
  0 <= n <= 9 ->
  match String (digit_char n) s with
  | String " " _ => true
  | _ => false
  end = false
  /\ is_space (digit_char n) = false.
Proof. intros Hn. digits n; split; reflexivity. Qed.

Lemma digit_char_compare (a b : Z) :
  0 <= a <= 9 -> 0 <= b <= 9 ->
  Ascii.compare (digit_char a) (digit_char b) = (a ?= b).
Proof. intros Ha Hb. digits a; digits b; reflexivity. Qed.

(** Two and four digits of a number. *)
Lemma two_digits (n : Z) :
  0 <= n < 100 ->
  0 <= n / 10 <= 9 /\ 0 <= n mod 10 <= 9 /\ n / 10 * 10 + n mod 10 = n.
Proof. intros Hn. Z.to_euclidean_division_equations. lia. Qed.

Lemma four_digits (n : Z) :
  0 <= n < 10000 ->
  0 <= n / 1000 <= 9 /\ 0 <= n / 100 mod 10 <= 9 /\ 0 <= n / 10 mod 10 <= 9
  /\ 0 <= n mod 10 <= 9
  /\ ((n / 1000 * 10 + n / 100 mod 10) * 10 + n / 10 mod 10) * 10 + n mod 10 = n.
Proof. intros Hn. Z.to_euclidean_division_equations. lia. Qed.

(** Reading digits. *)
Lemma span_digits_digit (n : Z) (s : string) :
  0 <= n <= 9 ->
  span_digits (String (digit_char n) s)
  = (n :: (span_digits s).1, (span_digits s).2).
Proof.
  intros Hn. cbn [span_digits]. rewrite digit_of_digit_char by done.
  by destruct (span_digits s).
Qed.

Lemma no_digit_empty : no_digit "".
Proof. reflexivity. Qed.

Lemma no_digit_cons (c : ascii) (s : string) :
  digit_of c = None -> no_digit (String c s).
Proof. intros Hc. unfold no_digit. cbn [span_digits]. by rewrite Hc. Qed.

Lemma field_two (lo1 lo2 hi a b : Z) (rest : string) :
  0 <= a <= 9 -> 0 <= b <= 9 -> lo2 <= a * 10 + b <= hi -> no_digit rest ->
  field lo1 lo2 hi (String (digit_char a) (String (digit_char b) rest))
  = Some (a * 10 + b, rest).
Proof.
  intros Ha Hb Hn Hrest. unfold field.
  rewrite !span_digits_digit, Hrest by done. cbn [fst snd number fold_left].
  replace ((0 * 10 + a) * 10 + b) with (a * 10 + b) by lia.
  destruct (Z.leb_spec lo2 (a * 10 + b)); [|lia].
  destruct (Z.leb_spec (a * 10 + b) hi); [|lia]. done.
Qed.

Lemma field_Y_four (a b c d : Z) (rest : string) :
  0 <= a <= 9 -> 0 <= b <= 9 -> 0 <= c <= 9 -> 0 <= d <= 9 -> no_digit rest ->
  field_Y (String (digit_char a) (String (digit_char b)
            (String (digit_char c) (String (digit_char d) rest))))
  = Some (((a * 10 + b) * 10 + c) * 10 + d, rest).
Proof.
  intros Ha Hb Hc Hd Hrest. unfold field_Y.
  rewrite !span_digits_digit, Hrest by done. cbn [fst snd number fold_left].
  reflexivity.
Qed.

Lemma field_d_two (a b : Z) (rest : string) :
  0 <= a <= 9 -> 0 <= b <= 9 -> 1 <= a * 10 + b <= 31 -> no_digit rest ->
  field_d (String (digit_char a) (String (digit_char b) rest))
  = Some (a * 10 + b, rest).
Proof.
  intros Ha Hb Hn Hrest.
  transitivity (field 1 1 31 (String (digit_char a) (String (digit_char b) rest))).
  - clear Hn. digits a; reflexivity.
  - by apply field_two.
Qed.

Lemma blanks_one (a : Z) (rest : string) :
  0 <= a <= 9 ->
  blanks (String " " (String (digit_char a) rest)) = Some (String (digit_char a) rest).
Proof. intros Ha. digits a; reflexivity. Qed.

(** The timestamp and the label with their characters spelled out. *)
Lemma isoformat_chars (d : datetime) :
  isoformat d
  = String (digit_char (year d / 1000)) (String (digit_char (year d / 100 mod 10))
      (String (digit_char (year d / 10 mod 10)) (String (digit_char (year d mod 10))
      (String "-" (String (digit_char (month d / 10)) (String (digit_char (month d mod 10))
      (String "-" (String (digit_char (day d / 10)) (String (digit_char (day d mod 10))
      (String " " (String (digit_char (hour d / 10)) (String (digit_char (hour d mod 10))
      (String ":" (String (digit_char (minute d / 10)) (String (digit_char (minute d mod 10))
      (String ":" (String (digit_char (second d / 10)) (String (digit_char (second d mod 10))
      "")))))))))))))))))).
Proof. reflexivity. Qed.

Lemma hour_label_chars (d : datetime) :
  hour_label d
  = String (digit_char (year d / 1000)) (String (digit_char (year d / 100 mod 10))
      (String (digit_char (year d / 10 mod 10)) (String (digit_char (year d mod 10))
      (String (digit_char (month d / 10)) (String (digit_char (month d mod 10))
      (String (digit_char (day d / 10)) (String (digit_char (day d mod 10))
      (String "T" (String (digit_char (hour d / 10)) (String (digit_char (hour d mod 10))
      "")))))))))).
Proof. reflexivity. Qed.

Lemma valid_ranges (d : datetime) :
  valid d = true ->
  0 <= year d < 10000 /\ 0 <= month d < 100 /\ 0 <= day d < 100
  /\ 0 <= hour d < 100 /\ 0 <= minute d < 100 /\ 0 <= second d < 100.
Proof.
  intros (Hy & Hm & Hd & Hh & Hmi & Hs)%valid_spec.
  pose proof (days_in_month_bounds (year d) (month d) Hm).
  unfold MINYEAR, MAXYEAR in *. lia.
Qed.

(** [strptime] reads a timestamp in the fixed-width form back. *)
Lemma strptime_isoformat (d : datetime) :
  valid d = true -> strptime (isoformat d) = Return d.
Proof.
  intros Hv. pose proof Hv as (Hy & Hm & Hd & Hh & Hmi & Hs)%valid_spec.
  pose proof (valid_ranges d Hv) as (Ry & Rm & Rd & Rh & Rmi & Rs).
  pose proof (days_in_month_bounds (year d) (month d) Hm) as Hdim.
  destruct (four_digits _ Ry) as (Y1 & Y2 & Y3 & Y4 & EY).
  destruct (two_digits _ Rm) as (M1 & M2 & EM).
  destruct (two_digits _ Rd) as (D1 & D2 & ED).
  destruct (two_digits _ Rh) as (H1 & H2 & EH).
  destruct (two_digits _ Rmi) as (I1 & I2 & EI).
  destruct (two_digits _ Rs) as (S1 & S2 & ES).
  unfold strptime.
  assert (Hscan : scan (isoformat d) = Some d).
  { rewrite isoformat_chars. unfold scan.
    rewrite field_Y_four by (done || by apply no_digit_cons).
    cbn [mbind option_bind literal Ascii.eqb Bool.eqb].
    rewrite field_two by (done || lia || by apply no_digit_cons).
    cbn [mbind option_bind literal Ascii.eqb Bool.eqb].
    rewrite field_d_two by (done || lia || by apply no_digit_cons).
    cbn [mbind option_bind]. rewrite blanks_one by done.
    cbn [mbind option_bind].
    rewrite field_two by (done || lia || by apply no_digit_cons).
    cbn [mbind option_bind literal Ascii.eqb Bool.eqb].
    rewrite field_two by (done || lia || by apply no_digit_cons).
    cbn [mbind option_bind literal Ascii.eqb Bool.eqb].
    rewrite field_two by (done || lia || apply no_digit_empty).
    cbn [mbind option_bind].
    rewrite EY, EM, ED, EH, EI, ES. by destruct d. }
  by rewrite Hscan, Hv.
Qed.

(** The label names the hour of its [datetime]. *)
Lemma label_hour_hour_label (d : datetime) :
  valid d = true -> label_hour (hour_label d) = Some (hour_index d).
Proof.
  intros Hv.
  pose proof (valid_ranges d Hv) as (Ry & Rm & Rd & Rh & Rmi & Rs).
  destruct (four_digits _ Ry) as (Y1 & Y2 & Y3 & Y4 & EY).
  destruct (two_digits _ Rm) as (M1 & M2 & EM).
  destruct (two_digits _ Rd) as (D1 & D2 & ED).
  destruct (two_digits _ Rh) as (H1 & H2 & EH).
  rewrite hour_label_chars. unfold label_hour.
  rewrite !span_digits_digit by done.
  change (span_digits (String "T" ?s)) with (@nil Z, String "T" s).
  cbn [fst snd]. lazy beta iota.
  rewrite !span_digits_digit by done. rewrite no_digit_empty. cbn [fst snd].
  lazy beta iota. unfold hour_index, number. cbn [fold_left].
  change (0 * 10) with 0. rewrite !Z.add_0_l.
  by rewrite EY, EM, ED, EH.
Qed.

(** Comparing strings of digits. *)
Lemma compare_digit (a b : Z) (s t : string) :
  0 <= a <= 9 -> 0 <= b <= 9 ->
  String.compare (String (digit_char a) s) (String (digit_char b) t)
  = match a ?= b with
    | Eq => String.compare s t
    | Lt => Lt
    | Gt => Gt
    end.
Proof.
  intros Ha Hb. cbn [String.compare]. by rewrite digit_char_compare.
Qed.

Lemma compare_same_char (c : ascii) (s t : string) :
  String.compare (String c s) (String c t) = String.compare s t.
Proof.
  cbn [String.compare]. unfold Ascii.compare. by rewrite N.compare_refl.
Qed.

Lemma lex_step (A B a b : Z) (K : comparison) :
  0 <= a <= 9 -> 0 <= b <= 9 ->
  match A ?= B with
  | Eq => match a ?= b with
          | Eq => K
          | Lt => Lt
          | Gt => Gt
          end
  | Lt => Lt
  | Gt => Gt
  end
  = match A * 10 + a ?= B * 10 + b with
    | Eq => K
    | Lt => Lt
    | Gt => Gt
    end.
Proof.
  intros Ha Hb.
  destruct (Z.compare_spec A B) as [HAB|HAB|HAB];
    [destruct (Z.compare_spec a b) as [Hab|Hab|Hab]| |].
  - subst. by rewrite Z.compare_refl.
  - by rewrite (proj2 (Z.compare_lt_iff _ _)) by lia.
  - by rewrite (proj2 (Z.compare_gt_iff _ _)) by lia.
  - by rewrite (proj2 (Z.compare_lt_iff _ _)) by lia.
  - by rewrite (proj2 (Z.compare_gt_iff _ _)) by lia.
Qed.

(** On timestamps in the fixed-width form the order of the strings is the
    order of the dates. *)
Lemma ltb_isoformat (a b : datetime) :
  valid a = true -> valid b = true ->
  String.ltb (isoformat a) (isoformat b) = ltb a b.
Proof.
  intros Ha Hb.
  pose proof (valid_ranges a Ha) as (Ry & Rm & Rd & Rh & Rmi & Rs).
  pose proof (valid_ranges b Hb) as (Ry' & Rm' & Rd' & Rh' & Rmi' & Rs').
  destruct (four_digits _ Ry) as (Y1 & Y2 & Y3 & Y4 & EY).
  destruct (two_digits _ Rm) as (M1 & M2 & EM).
  destruct (two_digits _ Rd) as (D1 & D2 & ED).
  destruct (two_digits _ Rh) as (H1 & H2 & EH).
  destruct (two_digits _ Rmi) as (I1 & I2 & EI).
  destruct (two_digits _ Rs) as (S1 & S2 & ES).
  destruct (four_digits _ Ry') as (Y1' & Y2' & Y3' & Y4' & EY').
  destruct (two_digits _ Rm') as (M1' & M2' & EM').
  destruct (two_digits _ Rd') as (D1' & D2' & ED').
  destruct (two_digits _ Rh') as (H1' & H2' & EH').
  destruct (two_digits _ Rmi') as (I1' & I2' & EI').
  destruct (two_digits _ Rs') as (S1' & S2' & ES').
  unfold String.ltb. rewrite !isoformat_chars.
  repeat first [rewrite compare_digit by done | rewrite compare_same_char].
  cbn [String.compare].
  rewrite (lex_step (second a / 10) (second b / 10)) by done.
  rewrite (lex_step (minute a / 10) (minute b / 10)) by done.
  rewrite (lex_step (hour a / 10) (hour b / 10)) by done.
  rewrite (lex_step (day a / 10) (day b / 10)) by done.
  rewrite (lex_step (month a / 10) (month b / 10)) by done.
  rewrite (lex_step (year a / 1000) (year b / 1000) (year a / 100 mod 10)) by done.
  rewrite (lex_step _ _ (year a / 10 mod 10) (year b / 10 mod 10)) by done.
  rewrite (lex_step _ _ (year a mod 10) (year b mod 10)) by done.
  rewrite EY, EM, ED, EH, EI, ES, EY', EM', ED', EH', EI', ES'.
  unfold ltb, Z.ltb.
  destruct (year a ?= year b), (month a ?= month b), (day a ?= day b),
    (hour a ?= hour b), (minute a ?= minute b), (second a ?= second b);
    reflexivity.
Qed.
End FormatFacts.

(** ** The shape of an expansion *)

Module ExpansionFacts.
Import Datetime CalendarFacts FormatFacts.

Lemma strptime_valid (s : string) (d : datetime) :
  strptime s = Return d -> valid d = true.
Proof.
  unfold strptime. destruct (scan s) as [d'|]; [|discriminate].
  destruct (valid d') eqn:Hv; [|discriminate]. by intros [= <-].
Qed.

Lemma strptime_not_OutOfFuel (s : string) : strptime s <> OutOfFuel.
Proof. unfold strptime. repeat case_match; discriminate. Qed.

(** Two dates neither of which is before the other are the same date. *)
Lemma ltb_antisym (a b : datetime) :
  ltb a b = false -> ltb b a = false -> a = b.
Proof.
  unfold ltb. destruct a as [y m d h mi s], b as [y' m' d' h' mi' s']. simpl.
  rewrite (Z.compare_antisym y y'), (Z.compare_antisym m m'),
    (Z.compare_antisym d d'), (Z.compare_antisym h h'),
    (Z.compare_antisym mi mi').
  destruct (Z.compare_spec y y'); simpl; try discriminate.
  destruct (Z.compare_spec m m'); simpl; try discriminate.
  destruct (Z.compare_spec d d'); simpl; try discriminate.
  destruct (Z.compare_spec h h'); simpl; try discriminate.
  destruct (Z.compare_spec mi mi'); simpl; try discriminate.
  intros Hs Hs'%Z.ltb_ge. apply Z.ltb_ge in Hs. f_equal; lia.
Qed.

Lemma ltb_irrefl (a : datetime) : ltb a a = false.
Proof. unfold ltb. rewrite !Z.compare_refl. apply Z.ltb_irrefl. Qed.

Lemma ltb_hour_index (a b : datetime) :
  valid a = true -> valid b = true -> ltb a b = true ->
  hour_index a <= hour_index b.
Proof.
  intros Ha Hb Hlt. rewrite ltb_second_index in Hlt by done.
  apply Z.ltb_lt in Hlt. apply hour_index_le; [done..|lia].
Qed.

Lemma not_ltb_hour_index (a b : datetime) :
  valid a = true -> valid b = true -> ltb a b = false ->
  hour_index b <= hour_index a.
Proof.
  intros Ha Hb Hlt. rewrite ltb_second_index in Hlt by done.
  apply Z.ltb_ge in Hlt. by apply hour_index_le.
Qed.

Lemma strftime_Return (d : datetime) :
  1900 <= year d -> strftime d = Return (hour_label d).
Proof.
  intros Hy. unfold strftime. by destruct (Z.ltb_spec (year d) 1900); [lia|].
Qed.

Lemma strftime_not_OutOfFuel (d : datetime) : strftime d <> OutOfFuel.
Proof. unfold strftime. by destruct (year d <? 1900). Qed.

(** The loop is never cut off when it has a unit of fuel for every hour
    still to go. *)
Lemma date_list_loop_fuel (fuel : nat) (dt e : datetime) (acc : list string) :
  valid dt = true -> valid e = true ->
  (ltb dt e = true -> (Z.to_nat (hour_index e - hour_index dt) < fuel)%nat) ->
  date_list_loop fuel dt e acc <> OutOfFuel.
Proof.
  revert dt acc. induction fuel as [|fuel IH]; intros dt acc Hdt He Hfuel.
  - simpl. destruct (ltb dt e); [|discriminate]. specialize (Hfuel eq_refl). lia.
  - simpl. destruct (ltb dt e) eqn:Hlt; [|discriminate].
    destruct (add_hour dt) as [dt'|x|] eqn:Hadd; [|discriminate|].
    + destruct (add_hour_Return _ _ Hdt Hadd) as (Hv' & Hhi & _).
      destruct (strftime dt') as [label|x|] eqn:Hlabel;
        [|discriminate|by apply strftime_not_OutOfFuel in Hlabel].
      apply IH; [done..|]. intros Hlt'.
      pose proof (ltb_hour_index _ _ Hv' He Hlt'). specialize (Hfuel eq_refl). lia.
    + by apply add_hour_not_OutOfFuel in Hadd.
Qed.

(** What the loop appends: the labels of the hours after that of
    [date_time], one by one, up to the first that is not before [end_date]. *)
Lemma date_list_loop_shape (fuel : nat) (dt e : datetime) (acc : list string) :
  valid dt = true -> valid e = true -> 1900 <= year dt ->
  (ltb dt e = true -> (Z.to_nat (hour_index e - hour_index dt) < fuel)%nat) ->
  ltb (mkdatetime MAXYEAR 12 31 23 (minute dt) (second dt)) e = false ->
  exists l,
    date_list_loop fuel dt e acc = Return (acc ++ l)
    /\ label_hour <$> l = Some <$> seqZ (hour_index dt + 1) (Z.of_nat (length l))
    /\ hour_index e <= hour_index dt + Z.of_nat (length l)
    /\ (ltb dt e = false -> l = []).
Proof.
  revert dt acc. induction fuel as [|fuel IH]; intros dt acc Hdt He Hy Hfuel Hlast.
  - simpl. destruct (ltb dt e) eqn:Hlt; [specialize (Hfuel eq_refl); lia|].
    exists []. rewrite app_nil_r. repeat split; try done.
    pose proof (not_ltb_hour_index _ _ Hdt He Hlt). simpl. lia.
  - simpl. destruct (ltb dt e) eqn:Hlt.
    + destruct (add_hour dt) as [dt'|x|] eqn:Hadd.
      * destruct (add_hour_Return _ _ Hdt Hadd) as (Hv' & Hhi & Hmi & Hs).
        pose proof (add_hour_year _ _ Hadd) as Hy'.
        rewrite strftime_Return by lia.
        destruct (IH dt' (acc ++ [hour_label dt']) Hv' He) as (l & Hl & Hlab & Hend & _).
        { lia. }
        { intros Hlt'. pose proof (ltb_hour_index _ _ Hv' He Hlt').
          specialize (Hfuel eq_refl). lia. }
        { by rewrite Hmi, Hs. }
        exists (hour_label dt' :: l). split; [by rewrite Hl, <- (assoc_L (++))|].
        split; [|split; [|done]].
        -- cbn [fmap list_fmap length]. rewrite label_hour_hour_label by done.
           rewrite seqZ_cons by lia. cbn [fmap list_fmap]. f_equal; [by rewrite Hhi|].
           change (list_fmap _ _ label_hour l) with (label_hour <$> l).
           rewrite Hlab, Hhi. do 2 f_equal; lia.
        -- cbn [length]. lia.
      * destruct (add_hour_Raise _ _ Hdt Hadd) as [_ Heq].
        rewrite <- Heq in Hlast. congruence.
      * by apply add_hour_not_OutOfFuel in Hadd.
    + exists []. rewrite app_nil_r. repeat split; try done.
      pose proof (not_ltb_hour_index _ _ Hdt He Hlt). simpl. lia.
Qed.

(** [date_list] returns or raises on every pair of strings: the fuel of
    its loop is never used up. *)
Lemma date_list_never_out_of_fuel (first_date second_date : string) :
  date_list first_date second_date <> OutOfFuel.
Proof.
  unfold date_list.
  destruct (strptime _) as [s| |] eqn:Hs; [|discriminate|by apply strptime_not_OutOfFuel in Hs].
  destruct (strptime (if String.ltb _ _ then second_date else _)) as [e| |] eqn:He;
    [|discriminate|by apply strptime_not_OutOfFuel in He].
  destruct (strftime s) as [label| |] eqn:Hlabel;
    [|discriminate|by apply strftime_not_OutOfFuel in Hlabel].
  apply strptime_valid in Hs, He.
  apply date_list_loop_fuel; [done..|]. intros _. lia.
Qed.

(** C5 (shape of an expansion), as the claim states it: for every pair of
    valid timestamps with [s <= e] the expansion would be a sequence.  In
    the last hour of year 9999 the hour after [s] is no [datetime], and
    [date_list] raises [OverflowError] when [e] lies after [s] there; and
    before year 1900 [strftime] gives no label, so that [date_list] raises
    [ValueError] even for [s = e]. *)
Lemma date_list_counterexample :
  strptime "9999-12-31 23:00:00" = Return (mkdatetime 9999 12 31 23 0 0)
  /\ strptime "9999-12-31 23:30:00" = Return (mkdatetime 9999 12 31 23 30 0)
  /\ ltb (mkdatetime 9999 12 31 23 30 0) (mkdatetime 9999 12 31 23 0 0) = false
  /\ date_list "9999-12-31 23:00:00" "9999-12-31 23:30:00" = Raise OverflowError
  /\ strptime "1899-12-31 23:00:00" = Return (mkdatetime 1899 12 31 23 0 0)
  /\ date_list "1899-12-31 23:00:00" "1899-12-31 23:00:00" = Raise ValueError.
Proof. repeat split. Qed.

(** C5, amended.  Let [s] and [e] be valid timestamps, written in the form
    [YYYY-MM-DD HH:MM:SS], with [s <= e], let [s] be of year 1900 or later,
    and let [e] be no later than 23 h of 31 December 9999 at the minute and
    second of [s].  Then [date_list] returns a list that starts with the
    label of the hour of [s]; its labels name consecutive hours, the first
    the hour of [s] and the last an hour at or after that of [e]; and for
    [s = e] the list has this one element. *)
Theorem date_list_shape :
  forall s e : datetime,
    valid s = true -> valid e = true ->
    ltb e s = false ->
    1900 <= year s ->
    ltb (mkdatetime MAXYEAR 12 31 23 (minute s) (second s)) e = false ->
    exists l,
      date_list (isoformat s) (isoformat e) = Return (hour_label s :: l)
      /\ label_hour <$> (hour_label s :: l)
         = Some <$> seqZ (hour_index s) (Z.of_nat (length (hour_label s :: l)))
      /\ hour_index e <= hour_index s + Z.of_nat (length l)
      /\ (s = e -> l = []).
Proof.
  intros s e Hs He Hle Hy Hlast.
  assert (Hloop : exists l,
    date_list (isoformat s) (isoformat e) = Return ([hour_label s] ++ l)
    /\ label_hour <$> l = Some <$> seqZ (hour_index s + 1) (Z.of_nat (length l))
    /\ hour_index e <= hour_index s + Z.of_nat (length l)
    /\ (ltb s e = false -> l = [])).
  { unfold date_list. rewrite ltb_isoformat by done.
    destruct (ltb s e) eqn:Hlt.
    - rewrite !strptime_isoformat, strftime_Return by done.
      destruct (date_list_loop_shape (S (Z.to_nat (hour_index e - hour_index s)))
                  s e [hour_label s] Hs He Hy) as (l & Hl & Hlab & Hend & _);
        [intros _; lia|done|].
      exists l. by repeat split.
    - assert (s = e) as <- by (by apply ltb_antisym).
      rewrite !strptime_isoformat, strftime_Return by done.
      destruct (date_list_loop_shape (S (Z.to_nat (hour_index s - hour_index s)))
                  s s [hour_label s] Hs Hs Hy) as (l & Hl & Hlab & Hend & Hnil);
        [intros _; lia|done|].
      exists l. repeat split; try done. intros _. apply Hnil, ltb_irrefl. }
  destruct Hloop as (l & Hl & Hlab & Hend & Hnil).
  exists l. split; [done|]. split; [|split; [done|]].
  - cbn [fmap list_fmap length]. rewrite label_hour_hour_label by done.
    rewrite seqZ_cons by lia. cbn [fmap list_fmap]. f_equal.
    change (list_fmap _ _ label_hour l) with (label_hour <$> l).
    rewrite Hlab. do 2 f_equal; lia.
  - intros <-. apply Hnil, ltb_irrefl.
Qed.

Lemma date_list_shape_witness :
  exists l,
    date_list (isoformat (mkdatetime 2020 1 1 0 0 0))
      (isoformat (mkdatetime 2020 1 1 2 0 0))
    = Return (hour_label (mkdatetime 2020 1 1 0 0 0) :: l)
    /\ label_hour <$> (hour_label (mkdatetime 2020 1 1 0 0 0) :: l)
       = Some <$> seqZ (hour_index (mkdatetime 2020 1 1 0 0 0))
                    (Z.of_nat (length (hour_label (mkdatetime 2020 1 1 0 0 0) :: l)))
    /\ hour_index (mkdatetime 2020 1 1 2 0 0)
       <= hour_index (mkdatetime 2020 1 1 0 0 0) + Z.of_nat (length l)
    /\ (mkdatetime 2020 1 1 0 0 0 = mkdatetime 2020 1 1 2 0 0 -> l = []).
Proof.
  apply (date_list_shape (mkdatetime 2020 1 1 0 0 0) (mkdatetime 2020 1 1 2 0 0));
    [reflexivity | reflexivity | reflexivity | simpl; lia | reflexivity].
Defined.

(** The scenario of the spec, and a timestamp with an unpadded month:
    [strptime] accepts it, but as a string it is not below the later
    date, so it is taken for the end of the interval. *)
Example date_list_scenario :
  date_list "2020-01-01 00:00:00" "2020-01-01 02:00:00"
  = Return ["20200101T00"; "20200101T01"; "20200101T02"].
Proof. reflexivity. Qed.

Example date_list_unpadded :
  date_list "2020-9-30 23:00:00" "2020-10-01 01:00:00" = Return ["20201001T01"].
Proof. reflexivity. Qed.
End ExpansionFacts.

(** ** More on the ledger gate *)

Module LedgerInvariants.
Import Ledger LedgerFacts.

Section invariants.
Context {A : Type} `{EqDecision A}.
Implicit Types (self : PreviousIngests A) (refdes : string) (x : A).

(** The three ways a call of the gate can go. *)
Lemma is_in_previous_ingests_cases self refdes x :
  is_in_previous_ingests refdes x self
  = match previous_ingests self !! refdes with
    | None => (Raise KeyError, self)
    | Some l =>
        if bool_decide (x ∈ l) then (Return true, self)
        else (Return false,
              mkPreviousIngests (<[refdes := l ++ [x]]> (previous_ingests self)))
    end.
Proof.
  destruct (previous_ingests self !! refdes) as [l|] eqn:Hl.
  - destruct (bool_decide (x ∈ l)) eqn:Hx.
    + apply bool_decide_eq_true_1 in Hx. by apply is_in_previous_ingests_old with l.
    + apply bool_decide_eq_false_1 in Hx. by apply is_in_previous_ingests_new.
  - by apply is_in_previous_ingests_absent_key.
Qed.
End invariants.

(** X1.  Whatever a call of [is_in_previous_ingests] answers or raises, the
    dictionary keeps its keys (the method never creates one), the lists of
    the other reference designators are as before, and the list of the
    reference designator asked about has at most grown at its end. *)
Theorem gate_keeps_keys_and_appends :
  forall (A : Type) (EqA : EqDecision A) (self : PreviousIngests A)
         (refdes : string) (x : A),
    dom (previous_ingests (is_in_previous_ingests refdes x self).2)
    = dom (previous_ingests self)
    /\ (forall k, k <> refdes ->
          previous_ingests (is_in_previous_ingests refdes x self).2 !! k
          = previous_ingests self !! k)
    /\ (forall l, previous_ingests self !! refdes = Some l ->
          exists l', previous_ingests (is_in_previous_ingests refdes x self).2 !! refdes
                     = Some (l ++ l')).
Proof.
  intros A EqA self refdes x. rewrite is_in_previous_ingests_cases.
  destruct (previous_ingests self !! refdes) as [l|] eqn:Hl.
  - destruct (bool_decide (x ∈ l)); simpl.
    + split; [done|]. split; [done|]. intros l0 Hl0. exists [].
      rewrite app_nil_r. congruence.
    + split.
      { rewrite dom_insert_L. apply elem_of_dom_2 in Hl. set_solver. }
      split.
      { intros k Hk. by rewrite lookup_insert_ne. }
      intros l0 [= <-]. exists [x]. by rewrite lookup_insert_eq.
  - simpl. split; [done|]. split; [done|]. intros l0 Hl0. congruence.
Qed.

(** X2.  When a call of the gate returns, the reference designator was a
    key, the answer tells whether the value was in its list before the
    call, and the same call made again answers [True] and changes nothing. *)
Theorem gate_answer_then_idempotent :
  forall (A : Type) (EqA : EqDecision A) (self self' : PreviousIngests A)
         (refdes : string) (x : A) (answer : bool),
    is_in_previous_ingests refdes x self = (Return answer, self') ->
    (exists l, previous_ingests self !! refdes = Some l
               /\ answer = bool_decide (x ∈ l))
    /\ is_in_previous_ingests refdes x self' = (Return true, self').
Proof.
  intros A EqA self self' refdes x answer. rewrite is_in_previous_ingests_cases.
  destruct (previous_ingests self !! refdes) as [l|] eqn:Hl; [|discriminate].
  destruct (bool_decide (x ∈ l)) eqn:Hx; intros [= <- <-].
  - split; [by exists l|]. apply bool_decide_eq_true_1 in Hx.
    by apply is_in_previous_ingests_old with l.
  - split; [by exists l|].
    apply is_in_previous_ingests_old with (l ++ [x]).
    + simpl. by rewrite lookup_insert_eq.
    + set_solver.
Qed.

Lemma gate_answer_then_idempotent_witness :
  (exists l, previous_ingests (mkPreviousIngests {["RS01SLBS-LJ01A-05-HYDLFA" := []]})
             !! "RS01SLBS-LJ01A-05-HYDLFA" = Some l
             /\ false = bool_decide ("20200101T00" ∈ l))
  /\ is_in_previous_ingests "RS01SLBS-LJ01A-05-HYDLFA" "20200101T00"
       (mkPreviousIngests {["RS01SLBS-LJ01A-05-HYDLFA" := ["20200101T00"]]})
     = (Return true,
        mkPreviousIngests {["RS01SLBS-LJ01A-05-HYDLFA" := ["20200101T00"]]}).
Proof.
  apply (gate_answer_then_idempotent string _
           (mkPreviousIngests {["RS01SLBS-LJ01A-05-HYDLFA" := []]})
           (mkPreviousIngests {["RS01SLBS-LJ01A-05-HYDLFA" := ["20200101T00"]]})
           "RS01SLBS-LJ01A-05-HYDLFA" "20200101T00" false).
  reflexivity.
Defined.

(** X3.  A ledger in which no list holds a value twice stays so under the
    gate: a value is appended only when the membership test has failed. *)
Theorem gate_keeps_lists_duplicate_free :
  forall (A : Type) (EqA : EqDecision A) (self : PreviousIngests A)
         (refdes : string) (x : A),
    map_Forall (fun _ l => NoDup l) (previous_ingests self) ->
    map_Forall (fun _ l => NoDup l)
      (previous_ingests (is_in_previous_ingests refdes x self).2).
Proof.
  intros A EqA self refdes x Hnd. rewrite is_in_previous_ingests_cases.
  destruct (previous_ingests self !! refdes) as [l|] eqn:Hl; [|done].
  destruct (bool_decide (x ∈ l)) eqn:Hx; [done|]. simpl.
  apply bool_decide_eq_false_1 in Hx.
  apply map_Forall_insert_2; [|done].
  apply NoDup_app. split; [by apply (Hnd refdes)|].
  split; [|apply NoDup_singleton].
  intros y Hy ->%list_elem_of_singleton. done.
Qed.

Lemma gate_keeps_lists_duplicate_free_witness :
  map_Forall (fun _ l => NoDup l)
    (previous_ingests
       (is_in_previous_ingests "RS01SLBS-LJ01A-05-HYDLFA" "20200101T01"
          (mkPreviousIngests {["RS01SLBS-LJ01A-05-HYDLFA" := ["20200101T00"]]})).2).
Proof.
  apply gate_keeps_lists_duplicate_free.
  apply map_Forall_singleton. apply NoDup_singleton.
Defined.
End LedgerInvariants.

(** ** More on the catalog *)

Module CatalogInvariants.
Import Catalog CatalogFacts.

Lemma length_fill_type (df : list row) : length (fill_type df) = length df.
Proof. unfold fill_type. apply length_fmap. Qed.

Lemma Driver_fill_type (df : list row) : Driver <$> fill_type df = Driver <$> df.
Proof.
  unfold fill_type. rewrite <- list_fmap_compose. apply list_fmap_ext.
  intros _ r _. simpl. by destruct (eq_str (Type_ r) "None").
Qed.

Lemma length_fold_refdes (df : list row) : length (fold_refdes df) = length df.
Proof.
  unfold fold_refdes. rewrite length_zip_with, length_shift1, length_fmap. lia.
Qed.

Lemma Driver_fold_refdes (df : list row) : Driver <$> fold_refdes df = Driver <$> df.
Proof.
  apply list_eq. intros i. rewrite !list_lookup_fmap.
  unfold fold_refdes. rewrite lookup_zip_with.
  destruct (df !! i) as [r|] eqn:Hi; [|done]. simpl.
  destruct (shift1 (Reference_Designator <$> df) !! i) as [c|] eqn:Hs.
  - simpl. by destruct (eq_cell _ _).
  - apply lookup_ge_None in Hs. apply lookup_lt_Some in Hi.
    rewrite length_shift1, length_fmap in Hs. lia.
Qed.

(** X4.  The load keeps the number of rows and the Driver column of the
    frame that was read: it only rewrites Type and Reference Designator
    cells. *)
Theorem load_keeps_rows_and_drivers :
  forall df : list row,
    length (request_cabled_raw df) = length df
    /\ Driver <$> request_cabled_raw df = Driver <$> df.
Proof.
  intros df. unfold request_cabled_raw. split.
  - by rewrite length_fold_refdes, length_fill_type.
  - by rewrite Driver_fold_refdes, Driver_fill_type.
Qed.

(** X5.  A row whose Type is neither the sentinel ['None'] nor its own
    Reference Designator comes out of the load unchanged, whatever the other
    rows of the frame hold. *)
Theorem load_leaves_plain_row :
  forall (df : list row) (i : nat) (r : row),
    df !! i = Some r ->
    eq_str (Type_ r) "None" = false ->
    eq_cell (Reference_Designator r) (Type_ r) = false ->
    request_cabled_raw df !! i = Some r.
Proof.
  intros df i r Hi Hnone Hown. unfold request_cabled_raw, fold_refdes.
  rewrite lookup_zip_with, (lookup_fill_type _ _ r), Hnone by done. simpl.
  destruct (shift1 (Reference_Designator <$> fill_type df) !! i) as [c|] eqn:Hs.
  - simpl. by rewrite Hown.
  - apply lookup_ge_None in Hs. apply lookup_lt_Some in Hi.
    rewrite length_shift1, length_fmap, length_fill_type in Hs. lia.
Qed.

Lemma load_leaves_plain_row_witness :
  request_cabled_raw
    [mkrow (Str "ctdpf_optode_calibration_coefficients") (Str "ctdpf_optode") (Str "None");
     mkrow (Str "RS01SLBS-LJ01A-05-HYDLFA") (Str "hydlf") (Str "hydlf_sample")]
    !! 1%nat
  = Some (mkrow (Str "RS01SLBS-LJ01A-05-HYDLFA") (Str "hydlf") (Str "hydlf_sample")).
Proof.
  apply (load_leaves_plain_row _ 1
           (mkrow (Str "RS01SLBS-LJ01A-05-HYDLFA") (Str "hydlf") (Str "hydlf_sample")));
    reflexivity.
Defined.

(** X6.  The second assignment of the load (line 55) takes every row whose
    Type equals its Reference Designator, also one that never held the
    sentinel: such a row gets the Reference Designator of the row above as
    read from the file. *)
Theorem load_rekeys_row_named_after_itself :
  forall (df : list row) (i : nat) (above r : row) (own : string),
    df !! i = Some above ->
    df !! S i = Some r ->
    Reference_Designator r = Str own ->
    Type_ r = Str own ->
    request_cabled_raw df !! S i
    = Some (mkrow (Reference_Designator above) (Driver r) (Str own)).
Proof.
  intros df i above r own Hi HS Hown Hty. unfold request_cabled_raw.
  rewrite (lookup_fold_refdes _ _ (mkrow (Str own) (Driver r) (Str own))
             (Reference_Designator above)).
  - cbn [Reference_Designator Type_ Driver]. by rewrite eq_cell_refl.
  - rewrite (lookup_fill_type _ _ r) by done. rewrite Hty.
    destruct (eq_str (Str own) "None"); [by rewrite Hown|].
    destruct r; simpl in *; congruence.
  - rewrite Reference_Designator_fill_type.
    eapply lookup_shift1; rewrite list_lookup_fmap.
    + by rewrite Hi.
    + by rewrite HS.
Qed.

Lemma load_rekeys_row_named_after_itself_witness :
  request_cabled_raw
    [mkrow (Str "RS01SLBS-LJ01A-05-HYDLFA") (Str "hydlf") (Str "hydlf_sample");
     mkrow (Str "hydlf_status") (Str "hydlf") (Str "hydlf_status")]
    !! 1%nat
  = Some (mkrow (Str "RS01SLBS-LJ01A-05-HYDLFA") (Str "hydlf") (Str "hydlf_status")).
Proof.
  apply (load_rekeys_row_named_after_itself _ 0
           (mkrow (Str "RS01SLBS-LJ01A-05-HYDLFA") (Str "hydlf") (Str "hydlf_sample"))
           (mkrow (Str "hydlf_status") (Str "hydlf") (Str "hydlf_status")));
    reflexivity.
Defined.

(** X7.  The first row of the file has no row above it: when its Type is
    the sentinel (or its own Reference Designator) the load leaves it with
    the missing value as Reference Designator, so that no reference
    designator selects it any more. *)
Theorem load_first_row_loses_its_key :
  forall (r : row) (rest : list row) (own : string),
    Reference_Designator r = Str own ->
    Type_ r = Str "None" \/ Type_ r = Str own ->
    request_cabled_raw (r :: rest) !! 0%nat = Some (mkrow NaN (Driver r) (Str own))
    /\ (forall refdes,
          mkrow NaN (Driver r) (Str own) ∉ select (request_cabled_raw (r :: rest)) refdes).
Proof.
  intros r rest own Hown Hty. split.
  - unfold request_cabled_raw.
    rewrite (lookup_fold_refdes _ _ (mkrow (Str own) (Driver r) (Str own)) NaN).
    + cbn [Reference_Designator Type_ Driver]. by rewrite eq_cell_refl.
    + rewrite (lookup_fill_type _ _ r) by done.
      destruct Hty as [Hty|Hty]; rewrite Hty.
      * simpl. by rewrite Hown.
      * destruct (eq_str (Str own) "None"); [by rewrite Hown|].
        destruct r; simpl in *; congruence.
    + reflexivity.
  - intros refdes [Hsel _]%list_elem_of_filter. discriminate.
Qed.

Lemma load_first_row_loses_its_key_witness :
  request_cabled_raw
    [mkrow (Str "RS01SLBS-LJ01A-12-CTDPFB") (Str "ctdpf") (Str "None")] !! 0%nat
  = Some (mkrow NaN (Str "ctdpf") (Str "RS01SLBS-LJ01A-12-CTDPFB")).
Proof.
  refine (proj1 (load_first_row_loses_its_key
                   (mkrow (Str "RS01SLBS-LJ01A-12-CTDPFB") (Str "ctdpf") (Str "None"))
                   [] "RS01SLBS-LJ01A-12-CTDPFB" _ _)).
  - reflexivity.
  - by left.
Defined.

(** X8.  [is_cabled] and [get_driver] agree: a reference designator is
    cabled exactly when [get_driver] returns, and not cabled exactly when
    [get_driver] raises [IndexError]; one that is not cabled has no reader
    type. *)
Theorem is_cabled_iff_get_driver_returns :
  forall (cabled_drivers_raw : list row) (refdes : string),
    (is_cabled cabled_drivers_raw refdes = true
     <-> exists driver, get_driver cabled_drivers_raw refdes = Return driver)
    /\ (is_cabled cabled_drivers_raw refdes = false
        <-> get_driver cabled_drivers_raw refdes = Raise IndexError)
    /\ (is_cabled cabled_drivers_raw refdes = false
        -> get_reader_type cabled_drivers_raw refdes = []).
Proof.
  intros cabled refdes. unfold is_cabled, get_driver, get_reader_type.
  destruct (select cabled refdes) as [|r rows].
  - split; [split; [discriminate | by intros [d Hd]]|]. by split.
  - split; [split; [by exists (Driver r) | done]|].
    split; [split; discriminate | discriminate].
Qed.

(** X9.  [get_reader_type] leaves out the string ['nan'] and nothing else:
    the Type of every other selected row is returned, the missing value
    included. *)
Theorem reader_types_leave_out_only_nan_string :
  forall (cabled_drivers_raw : list row) (refdes : string),
    (Str "nan" ∉ get_reader_type cabled_drivers_raw refdes)
    /\ (forall r, r ∈ select cabled_drivers_raw refdes ->
          Type_ r <> Str "nan" ->
          Type_ r ∈ get_reader_type cabled_drivers_raw refdes).
Proof.
  intros cabled refdes. unfold get_reader_type. split.
  - intros (r & Hr & [Hnan _]%list_elem_of_filter)%list_elem_of_fmap.
    rewrite <- Hr in Hnan. discriminate Hnan.
  - intros r Hr Hty. apply list_elem_of_fmap_2. apply list_elem_of_filter.
    split; [|done]. destruct (Type_ r) as [|s]; [done|]. simpl.
    apply bool_decide_eq_false_2. congruence.
Qed.
End CatalogInvariants.

(** ** More on [date_list] *)

Module ExpansionInvariants.
Import Datetime CalendarFacts FormatFacts ExpansionFacts.

Lemma date_list_eq (first_date second_date : string) :
  date_list first_date second_date
  = match strptime (start_date_of first_date second_date) with
    | Return s =>
        match strptime (end_date_of first_date second_date) with
        | Return e =>
            match strftime s with
            | Return label =>
                date_list_loop (S (Z.to_nat (hour_index e - hour_index s))) s e [label]
            | Raise x => Raise x
            | OutOfFuel => OutOfFuel
            end
        | Raise x => Raise x
        | OutOfFuel => OutOfFuel
        end
    | Raise x => Raise x
    | OutOfFuel => OutOfFuel
    end.
Proof. reflexivity. Qed.

Lemma strptime_cases (s : string) :
  strptime s = Raise ValueError \/ exists d, strptime s = Return d /\ valid d = true.
Proof.
  unfold strptime. destruct (scan s) as [d|]; [|by left].
  destruct (valid d) eqn:Hd; [right; by exists d | by left].
Qed.

(** A valid [datetime] is before whatever lies after the last hour of the
    calendar at its minute and second. *)
Lemma ltb_last_hour (d e : datetime) :
  valid d = true -> valid e = true ->
  ltb (last_hour d) e = true -> ltb d e = true.
Proof.
  intros (Hyd & Hmd & Hdd & Hhd & Hmid & Hsd)%valid_spec
         (Hye & Hme & Hde & Hhe & Hmie & Hse)%valid_spec.
  pose proof (days_in_month_bounds (year d) (month d) Hmd).
  pose proof (days_in_month_bounds (year e) (month e) Hme).
  unfold ltb, last_hour, MINYEAR, MAXYEAR in *. cbn [year month day hour minute second].
  destruct (Z.compare_spec 9999 (year e)); [|lia|discriminate].
  destruct (Z.compare_spec 12 (month e)); [|lia|discriminate].
  destruct (Z.compare_spec 31 (day e)); [|lia|discriminate].
  destruct (Z.compare_spec 23 (hour e)); [|lia|discriminate].
  intros Hlt.
  destruct (Z.compare_spec (year d) (year e)); [|done|lia].
  destruct (Z.compare_spec (month d) (month e)); [|done|lia].
  destruct (Z.compare_spec (day d) (day e)); [|done|lia].
  destruct (Z.compare_spec (hour d) (hour e)); [|done|lia].
  done.
Qed.

Lemma hour_steps_0 (dt e : datetime) :
  second_index e <= second_index dt -> hour_steps dt e = 0.
Proof.
  unfold hour_steps. generalize (second_index e) (second_index dt). intros a b Hab.
  assert ((a - b + 3599) / 3600 < 1) by (apply Z.div_lt_upper_bound; lia). lia.
Qed.

Lemma hour_steps_succ (dt dt' e : datetime) :
  second_index dt < second_index e ->
  second_index dt' = second_index dt + 3600 ->
  hour_steps dt e = 1 + hour_steps dt' e.
Proof.
  unfold hour_steps. intros Hlt ->.
  revert Hlt. generalize (second_index e) (second_index dt). intros a b Hab.
  replace (a - (b + 3600) + 3599) with ((a - b + 3599) + (-1) * 3600) by lia.
  rewrite Z.div_add by done.
  assert (1 <= (a - b + 3599) / 3600) by (apply Z.div_le_lower_bound; lia).
  lia.
Qed.

(** The loop of [date_list] from a valid [date_time] of year 1900 or later:
    it raises [OverflowError] when [end_date] lies after the last hour of
    the calendar at the minute of [date_time], and otherwise it appends the
    labels of the following hours, as many as there are hour steps. *)
Lemma date_list_loop_cases (fuel : nat) (dt e : datetime) (acc : list string) :
  valid dt = true -> valid e = true -> 1900 <= year dt ->
  (ltb dt e = true -> (Z.to_nat (hour_index e - hour_index dt) < fuel)%nat) ->
  if ltb (last_hour dt) e
  then date_list_loop fuel dt e acc = Raise OverflowError
  else exists l,
      date_list_loop fuel dt e acc = Return (acc ++ l)
      /\ label_hour <$> l = Some <$> seqZ (hour_index dt + 1) (Z.of_nat (length l))
      /\ Z.of_nat (length l) = hour_steps dt e.
Proof.
  revert dt acc. induction fuel as [|fuel IH]; intros dt acc Hdt He Hy Hfuel.
  - destruct (ltb dt e) eqn:Hlt; [specialize (Hfuel eq_refl); lia|].
    destruct (ltb (last_hour dt) e) eqn:Hlast.
    { apply ltb_last_hour in Hlast; [congruence|done..]. }
    simpl. rewrite Hlt. exists []. rewrite app_nil_r. repeat split.
    rewrite ltb_second_index in Hlt by done. apply Z.ltb_ge in Hlt.
    by rewrite hour_steps_0.
  - simpl. destruct (ltb dt e) eqn:Hlt.
    + destruct (add_hour dt) as [dt'|x|] eqn:Hadd.
      * destruct (add_hour_Return _ _ Hdt Hadd) as (Hv' & Hhi & Hmi & Hs).
        pose proof (add_hour_year _ _ Hadd) as Hy'.
        rewrite strftime_Return by lia.
        specialize (IH dt' (acc ++ [hour_label dt']) Hv' He).
        assert (last_hour dt' = last_hour dt) as Hsame
          by (unfold last_hour; by rewrite Hmi, Hs).
        rewrite Hsame in IH.
        destruct (ltb (last_hour dt) e) eqn:Hlast.
        -- apply IH; [lia|]. intros Hlt'.
           pose proof (ltb_hour_index _ _ Hv' He Hlt'). specialize (Hfuel eq_refl). lia.
        -- destruct IH as (l & Hl & Hlab & Hlen).
           { lia. }
           { intros Hlt'. pose proof (ltb_hour_index _ _ Hv' He Hlt').
             specialize (Hfuel eq_refl). lia. }
           exists (hour_label dt' :: l). split; [by rewrite Hl, <- (assoc_L (++))|].
           split.
           ++ cbn [fmap list_fmap length]. rewrite label_hour_hour_label by done.
              rewrite seqZ_cons by lia. cbn [fmap list_fmap]. f_equal; [by rewrite Hhi|].
              change (list_fmap _ _ label_hour l) with (label_hour <$> l).
              rewrite Hlab, Hhi. do 2 f_equal; lia.
           ++ rewrite ltb_second_index in Hlt by done. apply Z.ltb_lt in Hlt.
              cbn [length]. rewrite Nat2Z.inj_succ, Hlen.
              rewrite (hour_steps_succ dt dt' e); [lia|done|].
              unfold second_index. rewrite Hhi, Hmi, Hs. lia.
      * destruct (add_hour_Raise _ _ Hdt Hadd) as [-> Heq].
        unfold last_hour. fold MAXYEAR. rewrite <- Heq. by rewrite Hlt.
      * by apply add_hour_not_OutOfFuel in Hadd.
    + destruct (ltb (last_hour dt) e) eqn:Hlast.
      { apply ltb_last_hour in Hlast; [congruence|done..]. }
      exists []. rewrite app_nil_r. repeat split.
      rewrite ltb_second_index in Hlt by done. apply Z.ltb_ge in Hlt.
      by rewrite hour_steps_0.
Qed.

(** What [date_list] does on any two strings, by cases. *)
Lemma date_list_cases (first_date second_date : string) :
  (date_list first_date second_date = Raise ValueError
   /\ (strptime first_date = Raise ValueError
       \/ strptime second_date = Raise ValueError
       \/ exists s, strptime (start_date_of first_date second_date) = Return s
                    /\ year s < 1900))
  \/ exists s e,
       strptime (start_date_of first_date second_date) = Return s
       /\ strptime (end_date_of first_date second_date) = Return e
       /\ 1900 <= year s
       /\ if ltb (last_hour s) e
          then date_list first_date second_date = Raise OverflowError
          else exists l,
              date_list first_date second_date = Return (hour_label s :: l)
              /\ label_hour <$> (hour_label s :: l)
                 = Some <$> seqZ (hour_index s) (Z.of_nat (length (hour_label s :: l)))
              /\ Z.of_nat (length (hour_label s :: l)) = 1 + hour_steps s e.
Proof.
  rewrite date_list_eq.
  destruct (strptime_cases (start_date_of first_date second_date)) as [Hs|(s & Hs & Hvs)].
  { left. rewrite Hs. split; [done|].
    unfold start_date_of in Hs. destruct (String.ltb _ _); auto. }
  destruct (strptime_cases (end_date_of first_date second_date)) as [He|(e & He & Hve)].
  { left. rewrite Hs, He. split; [done|].
    unfold end_date_of in He. destruct (String.ltb _ _); auto. }
  rewrite Hs, He. unfold strftime.
  destruct (Z.ltb_spec (year s) 1900) as [Hy|Hy].
  { left. split; [done|]. right. right. by exists s. }
  right. exists s, e. do 3 (split; [done|]).
  pose proof (date_list_loop_cases (S (Z.to_nat (hour_index e - hour_index s)))
                s e [hour_label s] Hvs Hve Hy) as Hloop.
  destruct (ltb (last_hour s) e); [apply Hloop; lia|].
  destruct Hloop as (l & Hl & Hlab & Hlen); [lia|].
  exists l. split; [done|]. split.
  - cbn [fmap list_fmap length]. rewrite label_hour_hour_label by done.
    rewrite seqZ_cons by lia. cbn [fmap list_fmap]. f_equal.
    change (list_fmap _ _ label_hour l) with (label_hour <$> l).
    rewrite Hlab. do 2 f_equal; lia.
  - cbn [length]. lia.
Qed.

(** X10.  [date_list] raises [ValueError] exactly when one of its
    arguments is no timestamp of the format, or when the argument that is
    the lesser string is a date before year 1900, for which Python 2 has no
    [strftime]. *)
Theorem date_list_ValueError_iff :
  forall first_date second_date : string,
    date_list first_date second_date = Raise ValueError
    <-> strptime first_date = Raise ValueError
        \/ strptime second_date = Raise ValueError
        \/ exists s, strptime (start_date_of first_date second_date) = Return s
                     /\ year s < 1900.
Proof.
  intros a b. split.
  - intros Hraise. destruct (date_list_cases a b) as [[_ H]|(s & e & _ & _ & _ & H)]; [done|].
    rewrite Hraise in H. destruct (ltb _ e); [done|]. by destruct H as (l & Hl & _).
  - intros H. destruct (date_list_cases a b) as [[Hd _]|(s & e & Hs & He & Hy & _)]; [done|].
    unfold start_date_of, end_date_of in *.
    destruct H as [H|[H|(s' & H & Hy')]]; destruct (String.ltb a b); try congruence.
    all: assert (s' = s) by congruence; subst; lia.
Qed.

(** X11.  [date_list] raises [OverflowError] exactly when both arguments
    are timestamps, the lesser string of year 1900 or later, and the other
    one lies in the last hour of year 9999 after the minute and second of
    the first: the loop then steps past the last [datetime]. *)
Theorem date_list_OverflowError_iff :
  forall first_date second_date : string,
    date_list first_date second_date = Raise OverflowError
    <-> exists s e,
        strptime (start_date_of first_date second_date) = Return s
        /\ strptime (end_date_of first_date second_date) = Return e
        /\ 1900 <= year s
        /\ ltb (last_hour s) e = true.
Proof.
  intros a b. split.
  - intros Hraise. destruct (date_list_cases a b) as [[H _]|(s & e & Hs & He & Hy & H)];
      [congruence|].
    exists s, e. do 3 (split; [done|]).
    destruct (ltb _ e); [done|]. destruct H as (l & Hl & _). congruence.
  - intros (s & e & Hs & He & Hy & Hlast).
    destruct (date_list_cases a b) as [[_ H]|(s' & e' & Hs' & He' & _ & H)].
    + unfold start_date_of, end_date_of in *.
      destruct H as [H|[H|(s' & H & Hy')]]; destruct (String.ltb a b); try congruence.
      all: assert (s' = s) by congruence; subst; lia.
    + assert (s' = s) as -> by congruence. assert (e' = e) as -> by congruence.
      by rewrite Hlast in H.
Qed.

(** X12.  Every list that [date_list] returns, for any two strings: with
    [s] the date of the lesser string and [e] that of the other, the list
    starts with the label of the hour of [s], its labels name consecutive
    hours, and it has one label more than there are whole or begun hours
    from [s] to [e] (one label only when [e] is not after [s]). *)
Theorem date_list_returns_consecutive_hours :
  forall (first_date second_date : string) (date_times : list string),
    date_list first_date second_date = Return date_times ->
    exists s e,
      strptime (start_date_of first_date second_date) = Return s
      /\ strptime (end_date_of first_date second_date) = Return e
      /\ head date_times = Some (hour_label s)
      /\ label_hour <$> date_times
         = Some <$> seqZ (hour_index s) (Z.of_nat (length date_times))
      /\ Z.of_nat (length date_times) = 1 + hour_steps s e.
Proof.
  intros a b l Hret.
  destruct (date_list_cases a b) as [[H _]|(s & e & Hs & He & Hy & H)]; [congruence|].
  exists s, e. do 2 (split; [done|]).
  destruct (ltb _ e); [congruence|]. destruct H as (l' & Hl & Hlab & Hlen).
  assert (l = hour_label s :: l') as -> by congruence. done.
Qed.

Lemma date_list_returns_consecutive_hours_witness :
  exists s e,
    strptime (start_date_of "2020-03-01 00:10:00" "2020-02-29 22:30:00") = Return s
    /\ strptime (end_date_of "2020-03-01 00:10:00" "2020-02-29 22:30:00") = Return e
    /\ head ["20200229T22"; "20200229T23"; "20200301T00"]
       = Some (hour_label s)
    /\ label_hour <$> ["20200229T22"; "20200229T23"; "20200301T00"]
       = Some <$> seqZ (hour_index s) (Z.of_nat 3)
    /\ Z.of_nat 3 = 1 + hour_steps s e.
Proof.
  apply (date_list_returns_consecutive_hours
           "2020-03-01 00:10:00" "2020-02-29 22:30:00"
           ["20200229T22"; "20200229T23"; "20200301T00"]).
  reflexivity.
Defined.
End ExpansionInvariants.

(** ** More on [playback] *)

Module PlaybackInvariants.
Import PlaybackFacts MainFacts.

Lemma join_cells_cases (l : list cell) :
  (exists ss, join_cells l = Return ss) \/ join_cells l = Raise TypeError.
Proof.
  induction l as [|[|s] l IH]; simpl; [left; by exists [] | by right |].
  destruct IH as [[ss ->]| ->]; [left; by exists (s :: ss) | by right].
Qed.

Lemma space_join_cases (l : list cell) :
  (exists s, space_join l = Return s) \/ space_join l = Raise TypeError.
Proof.
  unfold space_join. destruct (join_cells_cases l) as [[ss ->]| ->]; [left|right]; eauto.
Qed.


(** One turn of the inner loop, by cases. *)
Lemma playback_one_cases (env : environment) (driver : cell)
    (node instrument refdes event_url particle_url : string) (reader : cell)
    (date : string) (p : process) :
  playback_one env driver node instrument refdes event_url particle_url reader date p
  = let directory := directory_pattern node instrument date in
    if glob_glob env (events p) directory then
      match space_join [Str "playback"; reader; driver; Str refdes; Str event_url;
                        Str particle_url; Str directory] with
      | Return command =>
          (Return tt,
           mkprocess (events p ++ isolated_invocation env (events p) (directory, command))
             (files p) (previous_ingests_var p))
      | Raise e =>
          (Raise e,
           mkprocess (events p ++ [EvGlob directory true]) (files p)
             (previous_ingests_var p))
      | OutOfFuel =>
          (OutOfFuel,
           mkprocess (events p ++ [EvGlob directory true]) (files p)
             (previous_ingests_var p))
      end
    else
      (Return tt,
       mkprocess (events p ++ [EvGlob directory false]) (files p)
         (previous_ingests_var p)).
Proof.
  unfold playback_one. rewrite directory_pattern_eq. cbv zeta.
  set (directory := directory_pattern node instrument date).
  unfold mbind, M_bind, bind, glob, isolated_invocation.
  destruct (glob_glob env (events p) directory) eqn:Hglob; [|by unfold ret].
  unfold lift. destruct (space_join _) as [command|e|]; [|done..].
  unfold emit, modify.
  cbn [events files previous_ingests_var].
  unfold try_except_TimeoutException_else, call.
  cbn [events files previous_ingests_var].
  rewrite <- !(assoc_L (++)). cbn [app].
  destruct (subprocess_call env _ _); cbn [events files previous_ingests_var];
    by rewrite <- !(assoc_L (++)).
Qed.


(** X13.  [playback] ends with an [IndexError] exactly when the reference
    designator has no row in the catalog or has fewer than four parts
    between dashes; it has then done nothing: no lookup, no log line, no
    call. *)
Theorem playback_IndexError_iff :
  forall (cabled_drivers_raw : list Catalog.row) (env : environment)
         (refdes event_url particle_url : string) (missing_dates : list string)
         (p : process),
    ((playback cabled_drivers_raw env refdes event_url particle_url missing_dates p).1
     = Raise IndexError
     <-> is_cabled cabled_drivers_raw refdes = false
         \/ (length (Str.split "-" refdes) < 4)%nat)
    /\ ((playback cabled_drivers_raw env refdes event_url particle_url missing_dates p).1
        = Raise IndexError
        -> (playback cabled_drivers_raw env refdes event_url particle_url
              missing_dates p).2 = p).
Proof.
  intros cabled env refdes event_url particle_url dates p.
  unfold playback, is_cabled, get_driver.
  destruct (select cabled refdes) as [|r rows].
  { split; [split; [by left | done] | done]. }
  rewrite bind_lift_Return. unfold index.
  destruct (Str.split "-" refdes !! 1%nat) as [node|] eqn:Hnode.
  2: { apply lookup_ge_None in Hnode. split; [split; [right; lia | done] | done]. }
  rewrite bind_lift_Return.
  destruct (Str.split "-" refdes !! 3%nat) as [instrument|] eqn:Hinstrument.
  2: { apply lookup_ge_None in Hinstrument. split; [split; [right; lia | done] | done]. }
  rewrite bind_lift_Return.
  apply lookup_lt_Some in Hinstrument.
  assert (Hloops :
    (for_each (get_reader_type cabled refdes) (fun reader =>
       for_each dates (fun date =>
         playback_one env (Driver r) (Str.lower node) instrument refdes event_url
           particle_url reader date)) p).1 <> Raise IndexError).
  { apply (for_each_outcome (fun o => o <> Raise IndexError)); [done|].
    intros reader q.
    apply (for_each_outcome (fun o => o <> Raise IndexError)); [done|].
    intros date q'. rewrite playback_one_cases. cbv zeta.
    destruct (glob_glob env _ _); [|done].
    destruct (space_join_cases
                [Str "playback"; reader; Driver r; Str refdes; Str event_url;
                 Str particle_url;
                 Str (directory_pattern (Str.lower node) instrument date)])
      as [[command ->]| ->]; done. }
  split; [split|]; [done| |done].
  intros [?|?]; [done|lia].
Qed.




End PlaybackInvariants.

(** ** More on [main] *)

Module MainInvariants.
Import LedgerFacts PlaybackFacts MainFacts.

(** X16.  What [main] retains of the reports (lines 195-199): a reference
    designator is a key of [missing_data_dict] exactly when it is listed,
    cabled, and has a non-empty list of gaps, and the value is that list. *)
Theorem missing_data_lookup :
  forall (cabled_drivers_raw : list Catalog.row) (rep : reporter) (server : string)
         (refdes_list : list string) (refdes : string)
         (gaps : list (string * string)),
    missing_data cabled_drivers_raw rep server refdes_list !! refdes = Some gaps
    <-> refdes ∈ refdes_list
        /\ is_cabled cabled_drivers_raw refdes = true
        /\ get_missing_data_list rep refdes server = gaps
        /\ gaps <> [].
Proof.
  intros cabled rep server l refdes gaps.
  induction l as [|r l IH] using rev_ind.
  - unfold missing_data. simpl. rewrite lookup_empty. split; [done|].
    intros [Hel _]. by apply elem_of_nil in Hel.
  - rewrite missing_data_snoc, elem_of_app, list_elem_of_singleton.
    destruct (decide (refdes = r)) as [->|Hne].
    + destruct (is_cabled cabled r) eqn:Hcabled.
      * destruct (get_missing_data_list rep r server) as [|g gs] eqn:Hg.
        -- rewrite IH. split; [intros (_ & _ & <- & Hgaps); done|].
           intros (_ & _ & <- & Hgaps). done.
        -- rewrite lookup_insert_eq. split.
           ++ intros [= <-]. by auto.
           ++ by intros (_ & _ & <- & _).
      * rewrite IH. split; [intros (_ & [=] & _) | intros (_ & [=] & _)].
    + assert (missing_data cabled rep server l !! refdes
              = (if is_cabled cabled r then
                   match get_missing_data_list rep r server with
                   | [] => missing_data cabled rep server l
                   | missing_data_list =>
                       <[r := missing_data_list]> (missing_data cabled rep server l)
                   end
                 else missing_data cabled rep server l) !! refdes) as <-.
      { destruct (is_cabled cabled r); [|done].
        destruct (get_missing_data_list rep r server); [done|].
        by rewrite lookup_insert_ne. }
      rewrite IH. split; intros (Hel & Hrest); (split; [|done]); [by left|].
      by destruct Hel.
Qed.

(** X17.  The module as it is, started in a directory that holds the
    ledger file [previous_ingest.pickle]: [main] ends at line 185 with a
    [NameError], since [load_previous_ingests] is a method of the class and
    no name of the module.  Nothing is read from the catalog or the
    reports, and nothing is played back. *)
Theorem main_as_shipped_with_ledger_file :
  forall (read_csv : outcome (list Catalog.row)) (rep : reporter) (env : environment)
         (event_url particle_url server : string) (p : process),
    truthy event_url = true -> truthy particle_url = true -> truthy server = true ->
    is_Some (files p !! "previous_ingest.pickle") ->
    main module_globals read_csv rep env event_url particle_url server p
    = (Raise (NameError "load_previous_ingests"), after_line_182 p).
Proof.
  intros read_csv rep env event_url particle_url server p He Hp Hs Hfile.
  rewrite main_eq by done. by rewrite bool_decide_eq_true_2.
Qed.

Lemma main_as_shipped_with_ledger_file_witness :
  main module_globals (Return Sample.catalog) Sample.rep Sample.no_data
    "qpid://event" "qpid://particle" "uframe-test" (Sample.fresh Sample.disk)
  = (Raise (NameError "load_previous_ingests"),
     after_line_182 (Sample.fresh Sample.disk)).
Proof.
  apply (main_as_shipped_with_ledger_file (Return Sample.catalog) Sample.rep
           Sample.no_data "qpid://event" "qpid://particle" "uframe-test"
           (Sample.fresh Sample.disk)); [reflexivity..|].
  by eexists.
Defined.

(** X18.  The module as it is, started without a ledger file, once the
    catalog is read: [main] returns only when nothing is retained of the
    reports; with any gap retained it ends at line 204 with a [NameError],
    [is_in_previous_ingests] being no name of the module either.  No gap is
    ever expanded or played back. *)
Theorem main_as_shipped_without_ledger_file :
  forall (df : list Catalog.row) (rep : reporter) (env : environment)
         (event_url particle_url server : string) (p : process),
    truthy event_url = true -> truthy particle_url = true -> truthy server = true ->
    files p !! "previous_ingest.pickle" = None ->
    main module_globals (Return df) rep env event_url particle_url server p
    = (if bool_decide (missing_data (request_cabled_raw df) rep server
                         (get_refdes_list rep server) = ∅)
       then Return tt
       else Raise (NameError "is_in_previous_ingests"),
       after_line_182 p).
Proof.
  intros df rep env event_url particle_url server p He Hp Hs Hfile.
  rewrite main_eq by done.
  rewrite bool_decide_eq_false_2 by (rewrite Hfile; by intros [? ?]).
  apply main_loop_first_gap_raises; [|done].
  intros refdes gaps. apply missing_data_nonempty.
Qed.

Lemma main_as_shipped_without_ledger_file_witness :
  main module_globals (Return Sample.catalog) Sample.rep Sample.no_data
    "qpid://event" "qpid://particle" "uframe-test" (Sample.fresh ∅)
  = (if bool_decide (missing_data (request_cabled_raw Sample.catalog) Sample.rep
                       "uframe-test" (get_refdes_list Sample.rep "uframe-test") = ∅)
     then Return tt
     else Raise (NameError "is_in_previous_ingests"),
     after_line_182 (Sample.fresh ∅)).
Proof.
  apply (main_as_shipped_without_ledger_file Sample.catalog Sample.rep
           Sample.no_data "qpid://event" "qpid://particle" "uframe-test"
           (Sample.fresh ∅)); reflexivity.
Defined.

End MainInvariants.
